(** * The database models of the flashcard tracker (app/models.py)

    The application is a set of Flask-SQLAlchemy model declarations: four
    entity tables ([user], [deck], [card], [class]), two association tables
    ([UserClasses], [CardClasses]), a handful of methods on the model classes
    and the [load_user] callback of flask_login.

    The development keeps the declarations as data (columns with their types,
    [primary_key], [unique] and [ForeignKey] options, as written in the
    source) and gives them meaning through a small relational engine
    ([Engine]): what an INSERT, UPDATE or DELETE does to a store whose
    constraints are exactly the declared ones.  The model classes are records
    over that store; their methods are functions of the record and the store.

    Two lines of the source do not parse as written: a comma is misplaced
    in the declaration of the second association table (line 40) and one is
    missing in [Card.__repr__] (line 133).  The declarations are read as
    the calls they spell out; [__repr__] plays no part here.

    Library code the models call but do not contain is kept abstract:
    the password digest behind werkzeug's [generate_password_hash] and
    [check_password_hash] is a parameter ([Hashing]); the random choices of
    the salt are an explicit argument. *)

From Stdlib Require Import ZArith String Ascii List Bool Lia.
From Stdlib Require Import DecimalString DecimalPos.
From stdpp Require Import base option list strings gmap.

(** ** Python values the models rely on *)

Module Py.

(** The exceptions that can reach a caller of the models. *)
Inductive exn :=
| AttributeError (msg : string)
| ValueError (msg : string)
| TypeError (msg : string)
| IntegrityError (msg : string)
| DataError (msg : string)
| OperationalError (msg : string)
| StaleDataError (msg : string).

(** A call either returns or raises. *)
Inductive result (A : Type) :=
| Ok (a : A)
| Raise (e : exn).
Arguments Ok {A} a.
Arguments Raise {A} e.

Definition bind {A B} (r : result A) (k : A -> result B) : result B :=
  match r with
  | Ok a => k a
  | Raise e => Raise e
  end.

Definition is_raise {A} (r : result A) : bool :=
  match r with
  | Ok _ => false
  | Raise _ => true
  end.

(** Characters [str.strip] and [int] treat as white space (ASCII range). *)
Definition is_space (c : ascii) : bool :=
  let n := nat_of_ascii c in
  (n =? 32) || ((9 <=? n) && (n <=? 13)) || ((28 <=? n) && (n <=? 31)).

Definition digit_of (c : ascii) : option Z :=
  let n := nat_of_ascii c in
  if (48 <=? n) && (n <=? 57) then Some (Z.of_nat (n - 48)) else None.

Fixpoint lstrip (s : string) : string :=
  match s with
  | String.String c s' => if is_space c then lstrip s' else s
  | EmptyString => EmptyString
  end.

Fixpoint rstrip (s : string) : string :=
  match s with
  | EmptyString => EmptyString
  | String.String c s' =>
      match rstrip s' with
      | EmptyString => if is_space c then EmptyString else String.String c EmptyString
      | r => String.String c r
      end
  end.

Definition strip (s : string) : string := rstrip (lstrip s).

(** Decimal digits, with single underscores allowed between two digits.
    [prev] tells whether the previous character was a digit. *)
Fixpoint int_digits (acc : Z) (prev : bool) (s : string) : option Z :=
  match s with
  | EmptyString => if prev then Some acc else None
  | String.String c s' =>
      match digit_of c with
      | Some d => int_digits (10 * acc + d) true s'
      | None =>
          if Ascii.eqb c "_" && prev then int_digits acc false s' else None
      end
  end.

(** [int(s)] on a string, base 10. *)
Definition int_of_str (s : string) : result Z :=
  let t := strip s in
  let parsed :=
    match t with
    | String.String "-" r => Z.opp <$> int_digits 0 false r
    | String.String "+" r => int_digits 0 false r
    | _ => int_digits 0 false t
    end in
  match parsed with
  | Some z => Ok z
  | None => Raise (ValueError "invalid literal for int() with base 10")
  end.

(** What the login session hands back as a user id: the text flask_login
    stored, or an integer. *)
Inductive session_id :=
| SidStr (s : string)
| SidInt (z : Z).

(** [int(user_id)]. *)
Definition int (v : session_id) : result Z :=
  match v with
  | SidStr s => int_of_str s
  | SidInt z => Ok z
  end.

(** [s.count(c)] for a one-character [c]. *)
Fixpoint count (c : ascii) (s : string) : nat :=
  match s with
  | EmptyString => 0
  | String.String a s' => (if Ascii.eqb a c then 1 else 0) + count c s'
  end.

(** [s.split(c, 1)] when [c] occurs: the text before and after its first
    occurrence. *)
Fixpoint split_once (c : ascii) (s : string) : option (string * string) :=
  match s with
  | EmptyString => None
  | String.String a s' =>
      if Ascii.eqb a c then Some (EmptyString, s')
      else match split_once c s' with
           | Some (l, r) => Some (String.String a l, r)
           | None => None
           end
  end.

(** [a, b, c = s.split(c, 2)]: [None] when unpacking into three fails. *)
Definition split3 (c : ascii) (s : string) : option (string * string * string) :=
  match split_once c s with
  | Some (a, rest) =>
      match split_once c rest with
      | Some (b, d) => Some (a, b, d)
      | None => None
      end
  | None => None
  end.

(** [str(n)] for an integer: decimal digits, a minus sign when negative. *)
Definition str_int (z : Z) : string := NilZero.string_of_int (Z.to_int z).

(** [str(x)] for an attribute that is an integer or [None], and for one
    that is text or [None] (what [format] puts in place of [{}]). *)
Definition str_opt_int (o : option Z) : string :=
  match o with
  | Some z => str_int z
  | None => "None"
  end.

Definition str_opt_str (o : option string) : string :=
  match o with
  | Some s => s
  | None => "None"
  end.

End Py.

Import Py.

Notation "x <-! r ;; k" := (Py.bind r (fun x => k))
  (at level 100, r at next level, right associativity).

(** ** werkzeug.security *)

(** The digest werkzeug computes is not part of the repository.
    [method_tag] is the method name [generate_password_hash] writes in front
    of a hash made with its default method, [pw_digest salt password] the hex
    digest of that method, and [other_method] what [_hash_internal] does
    under any other method name (a digest, or an exception for a method it
    does not know). *)
Class Hashing := {
  method_tag : string;
  pw_digest : string -> string -> string;
  other_method : string -> string -> string -> result string
}.

Module Werkzeug.

Section Security.
Context `{Hashing}.

Definition SALT_CHARS : string :=
  "abcdefghijklmnopqrstuvwxyzABCDEFGHIJKLMNOPQRSTUVWXYZ0123456789".

(** [SALT_CHARS[i]]; the index is always in range at the one call below. *)
Definition salt_char (i : nat) : ascii :=
  match String.get (i mod String.length SALT_CHARS) SALT_CHARS with
  | Some c => c
  | None => "a"%char
  end.

(** [gen_salt(length)]: one random choice in SALT_CHARS per character. The
    choices are the argument. *)
Fixpoint gen_salt (choices : list nat) : string :=
  match choices with
  | [] => EmptyString
  | i :: rest => String.String (salt_char i) (gen_salt rest)
  end.

Definition _hash_internal (method salt password : string) : result string :=
  if String.eqb method method_tag then Ok (pw_digest salt password)
  else other_method method salt password.

(** [generate_password_hash(password)]: "method$salt$digest". *)
Definition generate_password_hash (choices : list nat) (password : string) : string :=
  let salt := gen_salt choices in
  method_tag +:+ "$" +:+ salt +:+ "$" +:+ pw_digest salt password.

(** [check_password_hash(pwhash, password)]. *)
Definition check_password_hash (pwhash password : string) : result bool :=
  if Py.count "$" pwhash <? 2 then Ok false
  else
    match Py.split3 "$" pwhash with
    | Some (method, salt, hashval) =>
        h <-! _hash_internal method salt password ;;
        Ok (String.eqb h hashval)
    | None => Raise (ValueError "not enough values to unpack")
    end.

End Security.

End Werkzeug.

(** ** Schema declarations (flask_sqlalchemy's [db]) *)

Module db.

(** [db.Integer] and [db.String(n)]. *)
Inductive sqltype :=
| Integer
| String (n : nat).

(** The keyword options the models pass to [db.Column]. [ForeignKey] names
    the referenced table and column ('user.id'). *)
Inductive colopt :=
| primary_key
| unique
| ForeignKey (target_table target_column : string).

Record column := Column {
  col_name : string;
  col_type : sqltype;
  col_opts : list colopt
}.

Record table := Table {
  tbl_name : string;
  tbl_columns : list column
}.

Definition is_primary_key (c : column) : bool :=
  existsb (fun o => match o with primary_key => true | _ => false end) (col_opts c).

Definition is_unique (c : column) : bool :=
  existsb (fun o => match o with unique => true | _ => false end) (col_opts c).

Fixpoint first_foreign_key (os : list colopt) : option (string * string) :=
  match os with
  | [] => None
  | ForeignKey t c :: _ => Some (t, c)
  | _ :: os' => first_foreign_key os'
  end.

Definition foreign_key (c : column) : option (string * string) :=
  first_foreign_key (col_opts c).

(** What a cell of a row holds. Every declared column is nullable. *)
Inductive value :=
| Null
| Int (z : Z)
| Str (s : string).

#[global] Instance value_eq_dec : EqDecision value.
Proof. solve_decision. Defined.

Abbreviation row := (list value).

End db.

(** ** The storage engine

    A store maps a table name to its rows, oldest first.  [md] is the
    metadata (the declared tables); [strict] tells whether the server runs in
    strict SQL mode, where a value too long for its column is an error
    instead of being cut. *)

Module Engine.

Abbreviation store := (gmap string (list db.row)).

Section Engine.
Variable md : list db.table.
Variable strict : bool.

Definition find_table (t : string) : option db.table :=
  List.find (fun tb => String.eqb (db.tbl_name tb) t) md.

Definition rows_of (st : store) (t : string) : list db.row :=
  default [] (st !! t).

Definition cell (i : nat) (r : db.row) : db.value :=
  default db.Null (r !! i).

Fixpoint find_index {A} (p : A -> bool) (l : list A) : option nat :=
  match l with
  | [] => None
  | x :: l' => if p x then Some 0 else S <$> find_index p l'
  end.

Definition pk_index (cols : list db.column) : option nat :=
  find_index db.is_primary_key cols.

Definition col_index (tb : db.table) (c : string) : option nat :=
  find_index (fun col => String.eqb (db.col_name col) c) (db.tbl_columns tb).

(** A value a column of the given type can hold. *)
Definition fits (ty : db.sqltype) (v : db.value) : bool :=
  match ty, v with
  | _, db.Null => true
  | db.Integer, db.Int _ => true
  | db.String n, db.Str s => String.length s <=? n
  | _, _ => false
  end.

(** Conversion of a bound parameter to the column type. The models only
    bind integers to Integer columns and text to String columns. *)
Definition coerce (ty : db.sqltype) (v : db.value) : result db.value :=
  match ty, v with
  | _, db.Null => Ok db.Null
  | db.Integer, db.Int z => Ok v
  | db.String n, db.Str s =>
      if String.length s <=? n then Ok v
      else if strict then Raise (DataError "Data too long for column")
      else Ok (db.Str (String.substring 0 n s))
  | _, _ => Raise (DataError "Incorrect value for column")
  end.

Fixpoint coerce_row (cols : list db.column) (r : db.row) : result db.row :=
  match cols, r with
  | [], [] => Ok []
  | c :: cols', v :: r' =>
      v' <-! coerce (db.col_type c) v ;;
      r'' <-! coerce_row cols' r' ;;
      Ok (v' :: r'')
  | _, _ => Raise (OperationalError "Column count does not match value count")
  end.

(** AUTO_INCREMENT: one more than the largest key in the table. *)
Definition next_id (i : nat) (rows : list db.row) : Z :=
  (1 + fold_right (fun r m => match cell i r with
                              | db.Int z => Z.max z m
                              | _ => m
                              end) 0 rows)%Z.

(** An integer primary key left NULL is generated. *)
Definition autoincrement (cols : list db.column) (rows : list db.row)
    (r : db.row) : db.row :=
  match pk_index cols with
  | Some i =>
      match cell i r, db.col_type <$> cols !! i with
      | db.Null, Some db.Integer => <[i := db.Int (next_id i rows)]> r
      | _, _ => r
      end
  | None => r
  end.

Definition has_value (i : nat) (v : db.value) (rows : list db.row) : bool :=
  existsb (fun r => bool_decide (cell i r = v)) rows.

(** Some row of the referenced table holds [v] in the referenced column. *)
Definition references (st : store) (target : string * string) (v : db.value) : bool :=
  match find_table target.1 with
  | Some tb =>
      match col_index tb target.2 with
      | Some j => has_value j v (rows_of st target.1)
      | None => false
      end
  | None => false
  end.

(** The constraints of one column on the value a new row gives it, against
    the rows [rows] of its table: a primary key is not NULL; a primary key
    or unique column does not repeat a value (NULLs never collide); a
    foreign key names an existing row. *)
Definition check_column (st : store) (rows : list db.row) (i : nat)
    (c : db.column) (v : db.value) : result unit :=
  match v with
  | db.Null =>
      if db.is_primary_key c then Raise (IntegrityError "Column cannot be null")
      else Ok tt
  | _ =>
      if (db.is_primary_key c || db.is_unique c) && has_value i v rows
      then Raise (IntegrityError "Duplicate entry")
      else
        match db.foreign_key c with
        | Some target =>
            if references st target v then Ok tt
            else Raise (IntegrityError "a foreign key constraint fails")
        | None => Ok tt
        end
  end.

(** Columns are checked in declaration order, from index [i] on. *)
Fixpoint check_columns (st : store) (rows : list db.row) (i : nat)
    (cols : list db.column) (r : db.row) : result unit :=
  match cols, r with
  | c :: cols', v :: r' =>
      _ <-! check_column st rows i c v ;;
      check_columns st rows (S i) cols' r'
  | _, _ => Ok tt
  end.

(** INSERT INTO t VALUES r: the stored row and the new store. *)
Definition insert (st : store) (t : string) (r : db.row) : result (db.row * store) :=
  match find_table t with
  | None => Raise (OperationalError "no such table")
  | Some tb =>
      let cols := db.tbl_columns tb in
      let rows := rows_of st t in
      r1 <-! coerce_row cols r ;;
      let r2 := autoincrement cols rows r1 in
      _ <-! check_columns st rows 0 cols r2 ;;
      Ok (r2, <[t := rows ++ [r2]]> st)
  end.

Definition is_row (i : nat) (id : Z) (r : db.row) : bool :=
  bool_decide (cell i r = db.Int id).

(** UPDATE t SET (all columns) = r WHERE pk = id. The key itself is kept. *)
Definition update (st : store) (t : string) (id : Z) (r : db.row) : result (db.row * store) :=
  match find_table t with
  | None => Raise (OperationalError "no such table")
  | Some tb =>
      let cols := db.tbl_columns tb in
      let rows := rows_of st t in
      match pk_index cols with
      | None => Raise (OperationalError "no primary key")
      | Some i =>
          if negb (existsb (is_row i id) rows)
          then Raise (StaleDataError "UPDATE statement expected to update 1 row; 0 were matched")
          else
            r1 <-! coerce_row cols (<[i := db.Int id]> r) ;;
            let others := List.filter (fun r' => negb (is_row i id r')) rows in
            _ <-! check_columns st others 0 cols r1 ;;
            Ok (r1, <[t := List.map (fun r' => if is_row i id r' then r1 else r') rows]> st)
      end
  end.

(** DELETE FROM t WHERE p. *)
Definition delete (st : store) (t : string) (p : db.row -> bool) : store :=
  <[t := List.filter (fun r => negb (p r)) (rows_of st t)]> st.

(** Well-formed stores: every row has one value per declared column, of the
    column's type, and primary keys are present and distinct. *)
Definition row_fits (cols : list db.column) (r : db.row) : Prop :=
  Forall2 (fun c v => fits (db.col_type c) v = true) cols r.

Definition pk_values (cols : list db.column) (rows : list db.row) : list db.value :=
  match pk_index cols with
  | Some i => cell i <$> rows
  | None => []
  end.

Definition wf_rows (tb : db.table) (rows : list db.row) : Prop :=
  Forall (row_fits (db.tbl_columns tb)) rows
  /\ NoDup (pk_values (db.tbl_columns tb) rows)
  /\ db.Null ∉ pk_values (db.tbl_columns tb) rows.

Definition wf (st : store) : Prop :=
  forall t rows, st !! t = Some rows ->
    exists tb, find_table t = Some tb /\ wf_rows tb rows.

End Engine.

End Engine.

Import Engine.

(** ** Association tables (models.py, lines 35-43)

    In the source the comma that should follow the name of the second table
    sits inside the string literal; the literal is kept as written. *)

Definition UserClasses : db.table :=
  db.Table "UserClasses"
    [ db.Column "user_id" db.Integer [db.ForeignKey "user" "id"];
      db.Column "class_id" db.Integer [db.ForeignKey "class" "id"] ].

Definition CardClasses : db.table :=
  db.Table "CardClasses,"
    [ db.Column "card_id" db.Integer [db.ForeignKey "card" "id"];
      db.Column "class_id" db.Integer [db.ForeignKey "class" "id"] ].

(** ** Mapped classes: the column attributes

    [db.Model] gives every class a table named after it and maps an instance
    to a row, attribute by attribute. A column attribute is [None] or a value
    of the column's Python type. *)

Class Model (A : Type) := {
  table : db.table;
  to_row : A -> db.row;
  of_row : db.row -> option A;
  identity : A -> option Z
}.

Definition int_cell (o : option Z) : db.value :=
  match o with
  | Some z => db.Int z
  | None => db.Null
  end.

Definition str_cell (o : option string) : db.value :=
  match o with
  | Some s => db.Str s
  | None => db.Null
  end.

Definition cell_int (v : db.value) : option (option Z) :=
  match v with
  | db.Null => Some None
  | db.Int z => Some (Some z)
  | db.Str _ => None
  end.

Definition cell_str (v : db.value) : option (option string) :=
  match v with
  | db.Null => Some None
  | db.Str s => Some (Some s)
  | db.Int _ => None
  end.

(** class User, lines 50-54. *)
Module user.

Record t := mk {
  id : option Z;
  first_name : option string;
  last_name : option string;
  email : option string;
  password_hash : option string
}.

Definition table : db.table :=
  db.Table "user"
    [ db.Column "id" db.Integer [db.primary_key];
      db.Column "first_name" (db.String 30) [];
      db.Column "last_name" (db.String 30) [];
      db.Column "email" (db.String 40) [db.unique];
      db.Column "password_hash" (db.String 128) [] ].

Definition to_row (u : t) : db.row :=
  [ int_cell (id u); str_cell (first_name u); str_cell (last_name u);
    str_cell (email u); str_cell (password_hash u) ].

Definition of_row (r : db.row) : option t :=
  match r with
  | [i; f; l; e; p] =>
      i' ← cell_int i; f' ← cell_str f; l' ← cell_str l;
      e' ← cell_str e; p' ← cell_str p;
      Some (mk i' f' l' e' p')
  | _ => None
  end.

#[global] Instance model : Model t :=
  Build_Model t table to_row of_row id.

End user.

(** class Deck, lines 90-93. *)
Module deck.

Record t := mk {
  id : option Z;
  name : option string;
  owner_id : option Z
}.

Definition table : db.table :=
  db.Table "deck"
    [ db.Column "id" db.Integer [db.primary_key];
      db.Column "name" (db.String 30) [db.unique];
      db.Column "owner_id" db.Integer [db.ForeignKey "user" "id"] ].

Definition to_row (d : t) : db.row :=
  [ int_cell (id d); str_cell (name d); int_cell (owner_id d) ].

Definition of_row (r : db.row) : option t :=
  match r with
  | [i; n; o] =>
      i' ← cell_int i; n' ← cell_str n; o' ← cell_int o;
      Some (mk i' n' o')
  | _ => None
  end.

#[global] Instance model : Model t :=
  Build_Model t table to_row of_row id.

End deck.

(** class Card, lines 114-120. *)
Module card.

Record t := mk {
  id : option Z;
  front : option string;
  back : option string;
  deck_id : option Z;
  owner_id : option Z
}.

Definition table : db.table :=
  db.Table "card"
    [ db.Column "id" db.Integer [db.primary_key];
      db.Column "front" (db.String 1200) [];
      db.Column "back" (db.String 1200) [];
      db.Column "deck_id" db.Integer [db.ForeignKey "deck" "id"];
      db.Column "owner_id" db.Integer [db.ForeignKey "user" "id"] ].

Definition to_row (c : t) : db.row :=
  [ int_cell (id c); str_cell (front c); str_cell (back c);
    int_cell (deck_id c); int_cell (owner_id c) ].

Definition of_row (r : db.row) : option t :=
  match r with
  | [i; f; b; d; o] =>
      i' ← cell_int i; f' ← cell_str f; b' ← cell_str b;
      d' ← cell_int d; o' ← cell_int o;
      Some (mk i' f' b' d' o')
  | _ => None
  end.

#[global] Instance model : Model t :=
  Build_Model t table to_row of_row id.

End card.

(** class Class, lines 139-143. *)
Module class.

Record t := mk {
  id : option Z;
  name : option string;
  password_hash : option string;
  owner_id : option Z
}.

Definition table : db.table :=
  db.Table "class"
    [ db.Column "id" db.Integer [db.primary_key];
      db.Column "name" (db.String 30) [db.unique];
      db.Column "password_hash" (db.String 128) [];
      db.Column "owner_id" db.Integer [db.ForeignKey "user" "id"] ].

Definition to_row (k : t) : db.row :=
  [ int_cell (id k); str_cell (name k); str_cell (password_hash k);
    int_cell (owner_id k) ].

Definition of_row (r : db.row) : option t :=
  match r with
  | [i; n; p; o] =>
      i' ← cell_int i; n' ← cell_str n; p' ← cell_str p; o' ← cell_int o;
      Some (mk i' n' p' o')
  | _ => None
  end.

#[global] Instance model : Model t :=
  Build_Model t table to_row of_row id.

End class.

(** [db.metadata]: every table the module declares, in declaration order. *)
Definition metadata : list db.table :=
  [ UserClasses; CardClasses; user.table; deck.table; card.table; class.table ].

(** ** Queries ([Model.query]) *)

Section Query.
Context {A : Type} `{Model A}.

(** [A.query.all()]. *)
Definition query_all (st : store) : list A :=
  omap of_row (rows_of st (db.tbl_name table)).

(** [A.query.get(ident)]: the instance with that primary key, or [None]. *)
Definition query_get (st : store) (ident : Z) : option A :=
  match pk_index (db.tbl_columns table) with
  | Some i =>
      r ← List.find (is_row i ident) (rows_of st (db.tbl_name table));
      of_row r
  | None => None
  end.

(** An instance whose attributes fit the declared column types. *)
Definition storable (x : A) : Prop :=
  row_fits (db.tbl_columns table) (to_row x).

End Query.

(** ** The model classes: constructors, methods and relationships *)

(** The keys a [secondary] table links to [key]: the cell [there] of every
    row whose cell [here] is [key]. *)
Definition linked (st : store) (secondary : db.table) (here there : nat) (key : Z) : list Z :=
  omap (fun r =>
          if bool_decide (cell here r = db.Int key) then
            match cell there r with
            | db.Int z => Some z
            | _ => None
            end
          else None)
       (rows_of st (db.tbl_name secondary)).

(** class User, lines 56-80. *)
Module User.

(** [User.__init__(first_name, last_name, email, password_hash)]. *)
Definition __init__ (first_name last_name email password_hash : option string) : user.t :=
  user.mk None first_name last_name email password_hash.

(** The [password] property, read. *)
Definition password (self : user.t) : result string :=
  Raise (AttributeError "password is not a readable attribute.").

Section Password.
Context `{Hashing}.

(** The [password] property, assigned. [choices] are the random picks of
    the salt. *)
Definition set_password (choices : list nat) (self : user.t) (password : string) : user.t :=
  user.mk (user.id self) (user.first_name self) (user.last_name self)
    (user.email self)
    (Some (Werkzeug.generate_password_hash choices password)).

(** [check_password_hash] reads its first argument as text: on [None] the
    attribute lookup fails. *)
Definition verify_password (self : user.t) (password : string) : result bool :=
  match user.password_hash self with
  | Some pwhash => Werkzeug.check_password_hash pwhash password
  | None => Raise (AttributeError "'NoneType' object has no attribute 'count'")
  end.

End Password.

(** [get_id()], inherited from flask_login's UserMixin (line 48): the text
    of the key, which the login session stores and hands to [load_user]. *)
Definition get_id (self : user.t) : string := Py.str_opt_int (user.id self).

(** [User.__repr__], lines 82-85: the last name comes first. *)
Definition __repr__ (self : user.t) : string :=
  "<ID: " +:+ Py.str_opt_int (user.id self) +:+ ", "
  +:+ Py.str_opt_str (user.last_name self) +:+ ", "
  +:+ Py.str_opt_str (user.first_name self) +:+ ">".

(** [decks], [cards], [classes]: what the user owns. *)
Definition decks (st : store) (self : user.t) : list deck.t :=
  match user.id self with
  | Some uid => List.filter (fun d => bool_decide (deck.owner_id d = Some uid)) (query_all st)
  | None => []
  end.

Definition cards (st : store) (self : user.t) : list card.t :=
  match user.id self with
  | Some uid => List.filter (fun c => bool_decide (card.owner_id c = Some uid)) (query_all st)
  | None => []
  end.

Definition classes (st : store) (self : user.t) : list class.t :=
  match user.id self with
  | Some uid => List.filter (fun k => bool_decide (class.owner_id k = Some uid)) (query_all st)
  | None => []
  end.

(** [user_classes]: the classes the user joined, through UserClasses. *)
Definition user_classes (st : store) (self : user.t) : list class.t :=
  match user.id self with
  | Some uid =>
      kid ← linked st UserClasses 0 1 uid;
      List.filter (fun k => bool_decide (class.id k = Some kid)) (query_all st)
  | None => []
  end.

End User.

(** [self.owner.first_name + " " + self.owner.last_name], the first line of
    the [__repr__] of Deck and Class (lines 106, 156): the attribute lookup
    fails on a missing owner, the concatenation on a missing name. *)
Definition owner_name (owner : option user.t) : result string :=
  match owner with
  | None => Raise (AttributeError "'NoneType' object has no attribute 'first_name'")
  | Some o =>
      match user.first_name o with
      | None => Raise (TypeError "unsupported operand type(s) for +: 'NoneType' and 'str'")
      | Some f =>
          match user.last_name o with
          | None => Raise (TypeError "can only concatenate str (not NoneType) to str")
          | Some l => Ok (f +:+ " " +:+ l)
          end
      end
  end.

(** class Deck, lines 95-109. *)
Module Deck.

(** [Deck.__init__(name, owner)]. Assigning [self.owner] sets [owner_id]
    to the owner's key. (An owner that is not stored yet has no key; the
    cascade that would store it in the same commit is not modelled.) *)
Definition __init__ (name : option string) (owner : user.t) : deck.t :=
  deck.mk None name (user.id owner).

(** [cards]: the cards of this deck. *)
Definition cards (st : store) (self : deck.t) : list card.t :=
  match deck.id self with
  | Some did => List.filter (fun c => bool_decide (card.deck_id c = Some did)) (query_all st)
  | None => []
  end.

(** [list_cards(an_owner_id)]:
    [Card.query.filter_by(owner_id=an_owner_id).all()]. *)
Definition list_cards (st : store) (self : deck.t) (an_owner_id : Z) : list card.t :=
  List.filter (fun c => bool_decide (card.owner_id c = Some an_owner_id)) (query_all st).

(** [owner], the backref of [User.decks]: the user [owner_id] names. *)
Definition owner (st : store) (self : deck.t) : option user.t :=
  deck.owner_id self ≫= query_get st.

(** [Deck.__repr__], lines 105-109. *)
Definition __repr__ (st : store) (self : deck.t) : result string :=
  name <-! owner_name (owner st self) ;;
  Ok ("<ID: " +:+ Py.str_opt_int (deck.id self) +:+ ", Name: "
      +:+ Py.str_opt_str (deck.name self) +:+ ", Owner: " +:+ name +:+ ">").

End Deck.

(** class Card, lines 122-126. *)
Module Card.

(** [Card.__init__(front, back, deck, owner)]. *)
Definition __init__ (front back : option string) (deck : deck.t) (owner : user.t) : card.t :=
  card.mk None front back (deck.id deck) (user.id owner).

(** Field assignment on an instance. *)
Definition set_front (self : card.t) (front : option string) : card.t :=
  card.mk (card.id self) front (card.back self) (card.deck_id self) (card.owner_id self).

Definition set_back (self : card.t) (back : option string) : card.t :=
  card.mk (card.id self) (card.front self) back (card.deck_id self) (card.owner_id self).

(** [cards], the backref of [Class.card_classes]: the classes the card is
    shared into. *)
Definition cards (st : store) (self : card.t) : list class.t :=
  match card.id self with
  | Some cid =>
      kid ← linked st CardClasses 0 1 cid;
      List.filter (fun k => bool_decide (class.id k = Some kid)) (query_all st)
  | None => []
  end.

(** [deck] and [owner], the backrefs of [Deck.cards] and [User.cards]. *)
Definition deck (st : store) (self : card.t) : option deck.t :=
  card.deck_id self ≫= query_get st.

Definition owner (st : store) (self : card.t) : option user.t :=
  card.owner_id self ≫= query_get st.

End Card.

(** class Class, lines 145-153. *)
Module Class.

(** [Class.__init__(name, password_hash, owner)]. *)
Definition __init__ (name password_hash : option string) (owner : user.t) : class.t :=
  class.mk None name password_hash (user.id owner).

(** [card_classes]: the cards shared into the class, through CardClasses. *)
Definition card_classes (st : store) (self : class.t) : list card.t :=
  match class.id self with
  | Some kid =>
      cid ← linked st CardClasses 1 0 kid;
      List.filter (fun c => bool_decide (card.id c = Some cid)) (query_all st)
  | None => []
  end.

(** [classes], the backref of [User.user_classes]: the members of the
    class. *)
Definition classes (st : store) (self : class.t) : list user.t :=
  match class.id self with
  | Some kid =>
      uid ← linked st UserClasses 1 0 kid;
      List.filter (fun u => bool_decide (user.id u = Some uid)) (query_all st)
  | None => []
  end.

(** [owner], the backref of [User.classes]. *)
Definition owner (st : store) (self : class.t) : option user.t :=
  class.owner_id self ≫= query_get st.

(** [Class.__repr__], lines 155-159. *)
Definition __repr__ (st : store) (self : class.t) : result string :=
  name <-! owner_name (owner st self) ;;
  Ok ("<ID: " +:+ Py.str_opt_int (class.id self) +:+ ", Name: "
      +:+ Py.str_opt_str (class.name self) +:+ ", Owner: " +:+ name +:+ ">").

End Class.

(** [load_user(user_id)], lines 24-30. *)
Definition load_user (st : store) (user_id : session_id) : result (option user.t) :=
  ident <-! Py.int user_id ;;
  Ok (query_get st ident).

(** ** The session: how callers persist what they build

    [db.session.add(x); db.session.commit()] inserts the row of a new
    instance; a commit after a field assignment updates the row; appending
    to or removing from a many-to-many collection inserts or deletes
    association rows.  A failed commit leaves the store as it was. *)

Module Session.

Section Session.
Variable strict : bool.

(** add a new instance and commit: the instance as stored. *)
Definition add {A} `{Model A} (st : store) (x : A) : result A * store :=
  match insert metadata strict st (db.tbl_name table) (to_row x) with
  | Ok (r, st') =>
      match of_row r with
      | Some x' => (Ok x', st')
      | None => (Raise (OperationalError "row does not map to an instance"), st)
      end
  | Raise e => (Raise e, st)
  end.

(** commit an instance whose fields were assigned. An instance without a
    key was never added: the session has nothing to write for it. *)
Definition commit {A} `{Model A} (st : store) (x : A) : result A * store :=
  match identity x with
  | None => (Ok x, st)
  | Some ident =>
      match update metadata strict st (db.tbl_name table) ident (to_row x) with
      | Ok (r, st') =>
          match of_row r with
          | Some x' => (Ok x', st')
          | None => (Raise (OperationalError "row does not map to an instance"), st)
          end
      | Raise e => (Raise e, st)
      end
  end.

(** [collection.append(y)] and commit, on a relationship through
    [secondary]: one new association row. *)
Definition link (secondary : db.table) (st : store) (a b : Z) : result unit * store :=
  match insert metadata strict st (db.tbl_name secondary) [db.Int a; db.Int b] with
  | Ok (_, st') => (Ok tt, st')
  | Raise e => (Raise e, st)
  end.

(** [collection.remove(y)] and commit: [list.remove] raises when [y] is not
    in the collection; otherwise the rows of the pair are deleted. *)
Definition unlink (secondary : db.table) (st : store) (a b : Z) : result unit * store :=
  let p := fun r : db.row => bool_decide (r = [db.Int a; db.Int b]) in
  if existsb p (rows_of st (db.tbl_name secondary))
  then (Ok tt, delete st (db.tbl_name secondary) p)
  else (Raise (ValueError "list.remove(x): x not in list"), st).

(** What a request can do to the store. *)
Inductive op :=
| AddUser (u : user.t)
| AddDeck (d : deck.t)
| AddCard (c : card.t)
| AddClass (k : class.t)
| SaveCard (c : card.t)
| Join (user_id class_id : Z)
| Leave (user_id class_id : Z)
| Share (card_id class_id : Z)
| Unshare (card_id class_id : Z).

Definition exec (o : op) (st : store) : store :=
  match o with
  | AddUser u => (add st u).2
  | AddDeck d => (add st d).2
  | AddCard c => (add st c).2
  | AddClass k => (add st k).2
  | SaveCard c => (commit st c).2
  | Join u k => (link UserClasses st u k).2
  | Leave u k => (unlink UserClasses st u k).2
  | Share c k => (link CardClasses st c k).2
  | Unshare c k => (unlink CardClasses st c k).2
  end.

(** The store after a sequence of requests, from the empty database. *)
Definition run (ops : list op) : store :=
  fold_left (fun st o => exec o st) ops ∅.

End Session.

End Session.

(** ** Predicates on stores *)

(** The facts the queries rest on: the table is declared under its name,
    its key is the first column, named [id], and rows and instances map to
    each other. *)
Class ModelFacts (A : Type) `{Model A} : Prop := {
  model_declared : find_table metadata (db.tbl_name table) = Some table;
  model_key : pk_index (db.tbl_columns table) = Some 0;
  model_id_column : col_index table "id" = Some 0;
  model_of_row : forall r x, of_row r = Some x -> r = to_row x;
  model_to_row : forall x, of_row (to_row x) = Some x;
  model_identity : forall x, cell 0 (to_row x) = int_cell (identity x);
  model_rows : forall r, row_fits (db.tbl_columns table) r -> is_Some (of_row r)
}.

(** How a request changes the rows of table [t]: not at all, by one
    inserted row, by an update (the card table only) or by a deletion (the
    association tables only). *)
Definition changed (strict : bool) (st st' : store) (t : string) : Prop :=
  rows_of st' t = rows_of st t
  \/ (exists r r2 st1,
        insert metadata strict st t r = Ok (r2, st1)
        /\ rows_of st' t = rows_of st t ++ [r2])
  \/ (t = db.tbl_name card.table
      /\ exists id r r1 st1,
           update metadata strict st t id r = Ok (r1, st1)
           /\ rows_of st' t = rows_of st1 t)
  \/ ((t = db.tbl_name UserClasses \/ t = db.tbl_name CardClasses)
      /\ exists p, rows_of st' t = List.filter (fun r => negb (p r)) (rows_of st t)).

(** No two rows share a value (NULL apart) in column [i]. *)
Definition distinct_at (i : nat) (rows : list db.row) : Prop :=
  forall r1 r2, r1 ∈ rows -> r2 ∈ rows ->
    cell i r1 = cell i r2 -> cell i r1 <> db.Null -> r1 = r2.

(** Every foreign key cell of every row names a row of the referenced
    table, or is NULL. *)
Definition fk_holds (st : store) : Prop :=
  forall tb i c target r,
    tb ∈ metadata -> db.tbl_columns tb !! i = Some c ->
    db.foreign_key c = Some target ->
    r ∈ rows_of st (db.tbl_name tb) -> cell i r <> db.Null ->
    references metadata st target (cell i r) = true.

(** The columns the declared foreign keys point to. *)
Definition fk_targets : list (string * string) :=
  [("user", "id"); ("class", "id"); ("card", "id"); ("deck", "id")].

(** ** A sample digest

    A stand-in for the digest, used to run the models on concrete inputs: it
    keeps salt and password in clear, so distinct passwords never collide. *)

Definition sample_hashing : Hashing :=
  {| method_tag := "pbkdf2:sha256:50000";
     pw_digest := fun salt password => salt +:+ ":" +:+ password;
     other_method := fun method _ _ => Raise (TypeError "invalid method") |}.

(** ** A sample run

    The scenario of the specification: two users, two decks, two cards, a
    class, one membership and one shared card. *)

Definition ann : user.t :=
  user.mk (Some 1%Z) (Some "Ann") (Some "Lee") (Some "a@x.com") (Some "h1").

Definition spanish : deck.t := deck.mk (Some 1%Z) (Some "Spanish") (Some 1%Z).

Definition french : deck.t := deck.mk (Some 2%Z) (Some "French") (Some 1%Z).

Definition sample_ops : list Session.op :=
  [ Session.AddUser (User.__init__ (Some "Ann") (Some "Lee") (Some "a@x.com") (Some "h1"));
    Session.AddUser (User.__init__ (Some "Bob") (Some "Ray") (Some "b@x.com") (Some "h2"));
    Session.AddDeck (Deck.__init__ (Some "Spanish") ann);
    Session.AddDeck (Deck.__init__ (Some "French") ann);
    Session.AddCard (Card.__init__ (Some "hola") (Some "hello") spanish ann);
    Session.AddCard (Card.__init__ (Some "bonjour") (Some "hello") french ann);
    Session.AddClass (Class.__init__ (Some "Period1") (Some "k1") ann);
    Session.Join 1 1;
    Session.Share 1 1 ].

Definition sample_store : store := Session.run true sample_ops.

Definition hola : card.t :=
  card.mk (Some 1%Z) (Some "hola") (Some "hello") (Some 1%Z) (Some 1%Z).

Definition period1 : class.t :=
  class.mk (Some 1%Z) (Some "Period1") (Some "k1") (Some 1%Z).

(** A text of 1201 characters. *)
Definition long_text : string := string_of_list_ascii (repeat "x"%char 1201).

(** * Properties *)

(** ** Text helpers *)

Lemma count_app c a b : Py.count c (a +:+ b) = Py.count c a + Py.count c b.
Proof.
  induction a as [|x a IH]; simpl; [reflexivity|].
  rewrite IH. lia.
Qed.

Lemma split_once_app c a b :
  Py.count c a = 0 ->
  Py.split_once c (a +:+ String.String c b) = Some (a, b).
Proof.
  induction a as [|x a IH]; simpl; intros Hc.
  - rewrite Ascii.eqb_refl. reflexivity.
  - destruct (Ascii.eqb x c); [discriminate|].
    rewrite IH by exact Hc. reflexivity.
Qed.

Lemma get_count s : forall i c, String.get i s = Some c -> 0 < Py.count c s.
Proof.
  induction s as [|x s IH]; intros i c; simpl; [destruct i; discriminate|].
  destruct i as [|i].
  - intros [= ->]. rewrite Ascii.eqb_refl. lia.
  - intros Hg. specialize (IH _ _ Hg). lia.
Qed.

Lemma split_once_none c s : Py.count c s = 0 -> Py.split_once c s = None.
Proof.
  induction s as [|x s IH]; simpl; [reflexivity|].
  destruct (Ascii.eqb x c); [discriminate|].
  intros Hc. rewrite IH by exact Hc. reflexivity.
Qed.

(** ** Passwords *)

Section PasswordFacts.
Context `{Hashing}.

(** Text without two separators is never taken for a hash. *)
Lemma check_plaintext pwhash q :
  Py.count "$" pwhash < 2 ->
  Werkzeug.check_password_hash pwhash q = Ok false.
Proof.
  intros Hc. unfold Werkzeug.check_password_hash.
  destruct (Nat.ltb_spec (Py.count "$" pwhash) 2); [reflexivity|lia].
Qed.

(** The method name holds no separator (werkzeug's names are made of
    letters, digits and colons). *)
Hypothesis method_tag_plain : Py.count "$" method_tag = 0.

Lemma salt_char_plain i : Ascii.eqb (Werkzeug.salt_char i) "$" = false.
Proof.
  unfold Werkzeug.salt_char.
  destruct (String.get _ _) as [c|] eqn:Hg; [|reflexivity].
  apply get_count in Hg.
  destruct (Ascii.eqb c "$") eqn:Hc; [|reflexivity].
  apply Ascii.eqb_eq in Hc. subst c. vm_compute in Hg. lia.
Qed.

Lemma gen_salt_plain choices : Py.count "$" (Werkzeug.gen_salt choices) = 0.
Proof.
  induction choices as [|i rest IH]; simpl; [reflexivity|].
  rewrite salt_char_plain, IH. reflexivity.
Qed.

(** A generated hash splits back into the method, the salt and the digest. *)
Lemma split3_generate choices p :
  Py.split3 "$" (Werkzeug.generate_password_hash choices p)
  = Some (method_tag, Werkzeug.gen_salt choices,
          pw_digest (Werkzeug.gen_salt choices) p).
Proof.
  unfold Werkzeug.generate_password_hash, Py.split3.
  change ("$" +:+ ?x) with (String.String "$" x).
  rewrite split_once_app by exact method_tag_plain.
  change ("$" +:+ ?x) with (String.String "$" x).
  rewrite split_once_app by apply gen_salt_plain.
  reflexivity.
Qed.

Lemma count_generate choices p :
  2 <= Py.count "$" (Werkzeug.generate_password_hash choices p).
Proof.
  unfold Werkzeug.generate_password_hash.
  rewrite !count_app. simpl. lia.
Qed.

(** Checking a candidate against a generated hash compares the two
    digests under the stored salt; it never raises. *)
Lemma check_generate choices p q :
  Werkzeug.check_password_hash (Werkzeug.generate_password_hash choices p) q
  = Ok (String.eqb (pw_digest (Werkzeug.gen_salt choices) q)
                   (pw_digest (Werkzeug.gen_salt choices) p)).
Proof.
  unfold Werkzeug.check_password_hash.
  pose proof (count_generate choices p) as Hc.
  destruct (Nat.ltb_spec (Py.count "$" (Werkzeug.generate_password_hash choices p)) 2);
    [lia|].
  rewrite split3_generate. unfold Werkzeug._hash_internal.
  rewrite String.eqb_refl. reflexivity.
Qed.

Lemma verify_after_set choices u p q :
  User.verify_password (User.set_password choices u p) q
  = Ok (String.eqb (pw_digest (Werkzeug.gen_salt choices) q)
                   (pw_digest (Werkzeug.gen_salt choices) p)).
Proof. unfold User.verify_password, User.set_password. simpl. apply check_generate. Qed.


End PasswordFacts.

Lemma sample_digest_injective salt p q :
  @pw_digest sample_hashing salt p = @pw_digest sample_hashing salt q -> p = q.
Proof.
  simpl. induction salt as [|c salt IH]; intros Heq.
  - change (String.String ":" p = String.String ":" q) in Heq.
    inversion Heq. reflexivity.
  - change (String.String c (salt +:+ ":" +:+ p) = String.String c (salt +:+ ":" +:+ q)) in Heq.
    inversion Heq. auto.
Qed.



(** C8. Reading [u.password] raises AttributeError; assigning it succeeds
    and leaves in [password_hash] the hash generated from the assigned
    value, the other attributes untouched. *)
Theorem password_is_write_only `{Hashing} choices (u : user.t) (p : string) :
  User.password u = Raise (AttributeError "password is not a readable attribute.")
  /\ user.password_hash (User.set_password choices u p)
     = Some (Werkzeug.generate_password_hash choices p)
  /\ user.id (User.set_password choices u p) = user.id u
  /\ user.first_name (User.set_password choices u p) = user.first_name u
  /\ user.last_name (User.set_password choices u p) = user.last_name u
  /\ user.email (User.set_password choices u p) = user.email u.
Proof. repeat split. Qed.



(** ** The storage engine *)

Section EngineFacts.
Variable md : list db.table.
Variable strict : bool.

Lemma rows_of_insert (st : store) t rows : rows_of (<[t := rows]> st) t = rows.
Proof. unfold rows_of. rewrite lookup_insert_eq. reflexivity. Qed.

Lemma rows_of_insert_ne (st : store) t t' rows :
  t <> t' -> rows_of (<[t := rows]> st) t' = rows_of st t'.
Proof. intros Hne. unfold rows_of. rewrite lookup_insert_ne by exact Hne. reflexivity. Qed.

Lemma substring_length n : forall s, String.length (String.substring 0 n s) <= n.
Proof.
  induction n as [|n IH]; intros [|c s]; simpl; try lia.
  specialize (IH s). lia.
Qed.

Lemma coerce_fits ty v v' : coerce strict ty v = Ok v' -> fits ty v' = true.
Proof.
  destruct ty as [|n], v as [|z|s]; simpl;
    try discriminate; try (intros [= <-]; reflexivity).
  destruct (Nat.leb_spec (String.length s) n) as [Hle|Hgt].
  - intros [= <-]. simpl. apply Nat.leb_le. exact Hle.
  - destruct strict; [discriminate|].
    intros [= <-]. simpl. apply Nat.leb_le, substring_length.
Qed.

(** Text too long for its column: an error in strict mode, cut otherwise. *)
Lemma coerce_overlong n s :
  n < String.length s ->
  coerce strict (db.String n) (db.Str s)
  = if strict then Raise (DataError "Data too long for column")
    else Ok (db.Str (String.substring 0 n s)).
Proof.
  intros Hlt. simpl.
  destruct (Nat.leb_spec (String.length s) n); [lia|reflexivity].
Qed.

Lemma coerce_id ty v : fits ty v = true -> coerce strict ty v = Ok v.
Proof.
  destruct ty as [|n], v as [|z|s]; simpl;
    try discriminate; try reflexivity.
  intros ->. reflexivity.
Qed.

Lemma coerce_int ty z v' : coerce strict ty (db.Int z) = Ok v' -> v' = db.Int z.
Proof. destruct ty; simpl; congruence. Qed.

Lemma coerce_null ty : coerce strict ty db.Null = Ok db.Null.
Proof. destruct ty; reflexivity. Qed.

Lemma coerce_row_fits cols : forall r r',
  coerce_row strict cols r = Ok r' -> row_fits cols r'.
Proof.
  induction cols as [|c cols IH]; intros [|v r] r'; simpl; try discriminate.
  - intros [= <-]. constructor.
  - destruct (coerce strict (db.col_type c) v) as [v'|] eqn:Hv; simpl; [|discriminate].
    destruct (coerce_row strict cols r) as [r''|] eqn:Hr; simpl; [|discriminate].
    intros [= <-]. constructor; [eapply coerce_fits; eassumption|].
    apply IH with r. exact Hr.
Qed.

Lemma coerce_row_id cols r : row_fits cols r -> coerce_row strict cols r = Ok r.
Proof.
  induction 1 as [|c v cols r Hv _ IH]; simpl; [reflexivity|].
  rewrite (coerce_id _ _ Hv). simpl. rewrite IH. reflexivity.
Qed.

(** Integer cells go through conversion unchanged. *)
Lemma coerce_row_int cols : forall r r' i z,
  coerce_row strict cols r = Ok r' -> r !! i = Some (db.Int z) ->
  r' !! i = Some (db.Int z).
Proof.
  induction cols as [|c cols IH]; intros [|v r] r' i z; simpl; try discriminate.
  destruct (coerce strict (db.col_type c) v) as [v'|] eqn:Hv; simpl; [|discriminate].
  destruct (coerce_row strict cols r) as [r''|] eqn:Hr; simpl; [|discriminate].
  intros [= <-]. destruct i as [|i]; simpl.
  - intros [= ->]. apply coerce_int in Hv. congruence.
  - apply IH. exact Hr.
Qed.

Lemma row_fits_length cols r : row_fits cols r -> length r = length cols.
Proof. intros Hf. symmetry. eapply Forall2_length. exact Hf. Qed.

Lemma find_index_Some {A} (p : A -> bool) l : forall i,
  find_index p l = Some i -> exists x, l !! i = Some x /\ p x = true.
Proof.
  induction l as [|x l IH]; intros i; simpl; [discriminate|].
  destruct (p x) eqn:Hp.
  - intros [= <-]. eauto.
  - destruct (find_index p l) as [j|]; simpl; [|discriminate].
    intros [= <-]. destruct (IH j eq_refl) as (y & Hy & Hpy). eauto.
Qed.

Lemma has_value_elem i v rows :
  has_value i v rows = true <-> v ∈ cell i <$> rows.
Proof.
  unfold has_value. rewrite existsb_exists, list_elem_of_fmap. split.
  - intros (r & Hin & Hb). apply bool_decide_eq_true in Hb.
    exists r. split; [congruence|]. apply list_elem_of_In. exact Hin.
  - intros (r & -> & Hin). exists r. split; [apply list_elem_of_In; exact Hin|].
    apply bool_decide_eq_true. reflexivity.
Qed.

Lemma next_id_above i rows : forall r z,
  r ∈ rows -> cell i r = db.Int z -> (z < next_id i rows)%Z.
Proof.
  unfold next_id. induction rows as [|r0 rows IH]; intros r z Hin Hc.
  - inversion Hin.
  - simpl. apply elem_of_cons in Hin as [->|Hin].
    + rewrite Hc. lia.
    + specialize (IH _ _ Hin Hc). destruct (cell i r0); lia.
Qed.

Lemma next_id_fresh i rows : has_value i (db.Int (next_id i rows)) rows = false.
Proof.
  destruct (has_value i _ rows) eqn:Hh; [|reflexivity].
  apply has_value_elem, list_elem_of_fmap in Hh as (r & Hc & Hin).
  pose proof (next_id_above i rows r _ Hin (eq_sym Hc)). lia.
Qed.

(** When the whole row passes, each column passed. *)
Lemma check_columns_lookup st rows cols : forall k r j c v,
  check_columns md st rows k cols r = Ok tt ->
  cols !! j = Some c -> r !! j = Some v ->
  check_column md st rows (k + j) c v = Ok tt.
Proof.
  induction cols as [|c0 cols IH]; intros k [|v0 r] j c v; simpl;
    try discriminate.
  destruct (check_column md st rows k c0 v0) as [[]|] eqn:H0; simpl; [|discriminate].
  intros Hrest. destruct j as [|j]; simpl.
  - intros [= <-] [= <-]. rewrite Nat.add_0_r. exact H0.
  - intros Hc Hr. replace (k + S j) with (S k + j) by lia.
    eapply IH; eassumption.
Qed.

End EngineFacts.

(** ** Well-formed stores are kept by every statement *)

Section Preservation.
Variable md : list db.table.
Variable strict : bool.

Lemma wf_rows_nil tb : wf_rows tb [].
Proof.
  unfold wf_rows, pk_values. destruct (pk_index _); simpl;
    (split; [constructor|split; [constructor|apply not_elem_of_nil]]).
Qed.

Lemma wf_rows_of st t tb :
  wf md st -> find_table md t = Some tb -> wf_rows tb (rows_of st t).
Proof.
  intros Hwf Hf. unfold rows_of. destruct (st !! t) as [rows|] eqn:Hl; simpl.
  - destruct (Hwf _ _ Hl) as (tb' & Hf' & Hrows). congruence.
  - apply wf_rows_nil.
Qed.

Lemma wf_insert_rows st t tb rows :
  wf md st -> find_table md t = Some tb -> wf_rows tb rows ->
  wf md (<[t := rows]> st).
Proof.
  intros Hwf Hf Hrows t0 rows0 Hl.
  destruct (decide (t = t0)) as [<-|Hne].
  - rewrite lookup_insert_eq in Hl. injection Hl as <-. eauto.
  - rewrite lookup_insert_ne in Hl by exact Hne. eauto.
Qed.

Lemma row_fits_insert cols r i c v :
  row_fits cols r -> cols !! i = Some c -> fits (db.col_type c) v = true ->
  row_fits cols (<[i := v]> r).
Proof.
  intros Hf Hc Hv. unfold row_fits.
  rewrite <- (list_insert_id cols i c Hc).
  apply Forall2_insert; assumption.
Qed.

Lemma autoincrement_fits cols rows r :
  row_fits cols r -> row_fits cols (autoincrement cols rows r).
Proof.
  intros Hf. unfold autoincrement.
  destruct (pk_index cols) as [i|]; [|exact Hf].
  destruct (cell i r); try exact Hf.
  destruct (cols !! i) as [c|] eqn:Hc; simpl; [|exact Hf].
  destruct (db.col_type c) eqn:Hty; [|exact Hf].
  eapply row_fits_insert; [exact Hf|exact Hc|]. rewrite Hty. reflexivity.
Qed.

Lemma check_column_pk st rows i c v :
  db.is_primary_key c = true ->
  check_column md st rows i c v = Ok tt ->
  v <> db.Null /\ has_value i v rows = false.
Proof.
  intros Hpk. unfold check_column. rewrite Hpk. simpl.
  destruct v; [discriminate| |];
    (destruct (has_value i _ rows); [discriminate|]; intros _; split; congruence).
Qed.

(** The key of a checked row is present and new. *)
Lemma checked_key_new st rows cols r i :
  pk_index cols = Some i -> length r = length cols ->
  check_columns md st rows 0 cols r = Ok tt ->
  cell i r <> db.Null /\ cell i r ∉ cell i <$> rows.
Proof.
  intros Hpk Hlen Hchk.
  destruct (find_index_Some _ _ _ Hpk) as (c & Hc & Hcp).
  destruct (lookup_lt_is_Some_2 r i) as [v Hv].
  { rewrite Hlen. eapply lookup_lt_Some. exact Hc. }
  pose proof (check_columns_lookup md st rows cols 0 r i c v Hchk Hc Hv) as H1.
  apply check_column_pk in H1 as [Hnn Hnew]; [|exact Hcp].
  assert (Hcell : cell i r = v).
  { unfold cell. transitivity (default db.Null (Some v)); [f_equal; exact Hv|reflexivity]. }
  rewrite Hcell. split; [exact Hnn|].
  intros Hin. apply has_value_elem in Hin.
  exact (eq_true_false_abs _ Hin Hnew).
Qed.

Lemma wf_rows_snoc tb rows r :
  wf_rows tb rows -> row_fits (db.tbl_columns tb) r ->
  (forall i, pk_index (db.tbl_columns tb) = Some i ->
     cell i r <> db.Null /\ cell i r ∉ cell i <$> rows) ->
  wf_rows tb (rows ++ [r]).
Proof.
  intros (Hfits & Hnd & Hnn) Hr Hkey. unfold wf_rows, pk_values in *.
  split; [apply Forall_app_2; [exact Hfits|constructor; [exact Hr|constructor]]|].
  destruct (pk_index (db.tbl_columns tb)) as [i|]; [|split; [constructor|apply not_elem_of_nil]].
  destruct (Hkey i eq_refl) as [Hk1 Hk2]. rewrite fmap_app. simpl. split.
  - apply NoDup_app. split; [exact Hnd|]. split; [|apply NoDup_singleton].
    intros x Hx Hx'. apply list_elem_of_singleton in Hx'. subst x. contradiction.
  - intros Hin. apply elem_of_app in Hin as [Hin|Hin]; [contradiction|].
    apply list_elem_of_singleton in Hin. congruence.
Qed.

Lemma insert_wf st t r r2 st' :
  wf md st -> insert md strict st t r = Ok (r2, st') -> wf md st'.
Proof.
  intros Hwf. unfold insert.
  destruct (find_table md t) as [tb|] eqn:Hf; [|discriminate].
  destruct (coerce_row strict (db.tbl_columns tb) r) as [r1|] eqn:Hr1; simpl; [|discriminate].
  destruct (check_columns md st _ 0 _ _) as [[]|] eqn:Hchk; simpl; [|discriminate].
  intros [= <- <-].
  pose proof (autoincrement_fits _ (rows_of st t) _ (coerce_row_fits strict _ _ _ Hr1)) as Hfit.
  eapply wf_insert_rows; [exact Hwf|exact Hf|].
  apply wf_rows_snoc; [eapply wf_rows_of; eassumption|exact Hfit|].
  intros i Hpk. eapply checked_key_new; [exact Hpk|apply row_fits_length; exact Hfit|exact Hchk].
Qed.

Lemma coerce_row_length cols : forall r r',
  coerce_row strict cols r = Ok r' -> length r = length cols.
Proof.
  induction cols as [|c cols IH]; intros [|v r] r'; simpl; try discriminate; [reflexivity|].
  destruct (coerce strict (db.col_type c) v); simpl; [|discriminate].
  destruct (coerce_row strict cols r) as [r''|] eqn:Hr; simpl; [|discriminate].
  intros _. f_equal. eapply IH. exact Hr.
Qed.

Lemma update_wf st t id r r1 st' :
  wf md st -> update md strict st t id r = Ok (r1, st') -> wf md st'.
Proof.
  intros Hwf. unfold update.
  destruct (find_table md t) as [tb|] eqn:Hf; [|discriminate].
  destruct (pk_index (db.tbl_columns tb)) as [i|] eqn:Hpk; [|discriminate].
  destruct (negb _); [discriminate|].
  destruct (coerce_row strict _ _) as [r1'|] eqn:Hr1; simpl; [|discriminate].
  destruct (check_columns md st _ 0 _ _) as [[]|]; simpl; [|discriminate].
  intros [= <- <-].
  eapply wf_insert_rows; [exact Hwf|exact Hf|].
  destruct (wf_rows_of st t tb Hwf Hf) as (Hfits & Hnd & Hnn).
  assert (Hkey : cell i r1' = db.Int id).
  { destruct (find_index_Some _ _ _ Hpk) as (c & Hc & _).
    pose proof (coerce_row_length _ _ _ Hr1) as Hlen.
    rewrite length_insert in Hlen.
    unfold cell. erewrite coerce_row_int; [reflexivity|exact Hr1|].
    apply list_lookup_insert_eq. rewrite Hlen. eapply lookup_lt_Some. exact Hc. }
  assert (Hsame : forall rows : list db.row,
             cell i <$> List.map (fun r' => if is_row i id r' then r1' else r') rows
             = cell i <$> rows).
  { intros rows. induction rows as [|r0 rows IH]; simpl; [reflexivity|].
    f_equal; [|apply IH].
    unfold is_row. destruct (bool_decide (cell i r0 = db.Int id)) eqn:Hb; [|reflexivity].
    apply bool_decide_eq_true in Hb. congruence. }
  unfold wf_rows, pk_values in *. rewrite Hpk in *. rewrite Hsame.
  split; [|split; assumption].
  apply Forall_forall. intros x Hx. apply list_elem_of_In, in_map_iff in Hx as (r0 & <- & Hin).
  destruct (is_row i id r0).
  - eapply coerce_row_fits. exact Hr1.
  - rewrite Forall_forall in Hfits. apply Hfits, list_elem_of_In. exact Hin.
Qed.

Lemma delete_wf st t tb p :
  wf md st -> find_table md t = Some tb -> wf md (delete st t p).
Proof.
  intros Hwf Hf. unfold delete.
  eapply wf_insert_rows; [exact Hwf|exact Hf|].
  destruct (wf_rows_of st t tb Hwf Hf) as (Hfits & Hnd & Hnn).
  unfold wf_rows, pk_values in *.
  split.
  { apply Forall_forall. intros x Hx. apply list_elem_of_In, filter_In in Hx as [Hin _].
    rewrite Forall_forall in Hfits. apply Hfits, list_elem_of_In. exact Hin. }
  destruct (pk_index (db.tbl_columns tb)) as [i|]; [|split; [constructor|apply not_elem_of_nil]].
  induction (rows_of st t) as [|r0 rows IH]; simpl; [split; [constructor|apply not_elem_of_nil]|].
  simpl in Hnd, Hnn. apply NoDup_cons in Hnd as [Hr0 Hnd].
  apply not_elem_of_cons in Hnn as [Hn0 Hnn].
  apply Forall_cons in Hfits as [_ Hfits].
  destruct (IH Hfits Hnd Hnn) as [IH1 IH2].
  destruct (negb (p r0)); simpl; [|split; assumption].
  split.
  - apply NoDup_cons. split; [|exact IH1].
    intros Hin. apply Hr0. apply list_elem_of_fmap in Hin as (x & Hx & Hin).
    apply list_elem_of_In, filter_In in Hin as [Hin _].
    apply list_elem_of_fmap. exists x. split; [exact Hx|apply list_elem_of_In; exact Hin].
  - apply not_elem_of_cons. split; assumption.
Qed.

End Preservation.

(** ** Stores a sequence of requests can produce *)

Section SessionFacts.
Variable strict : bool.

Lemma wf_empty : wf metadata ∅.
Proof. intros t rows Hl. rewrite lookup_empty in Hl. discriminate. Qed.

Lemma add_wf {A} `{Model A} st (x : A) :
  wf metadata st -> wf metadata (Session.add strict st x).2.
Proof.
  intros Hwf. unfold Session.add.
  destruct (insert _ _ _ _ _) as [[r st']|] eqn:Hi; [|exact Hwf].
  destruct (of_row r); simpl; [|exact Hwf].
  eapply insert_wf; eassumption.
Qed.

Lemma commit_wf {A} `{Model A} st (x : A) :
  wf metadata st -> wf metadata (Session.commit strict st x).2.
Proof.
  intros Hwf. unfold Session.commit.
  destruct (identity x); [|exact Hwf].
  destruct (update _ _ _ _ _ _) as [[r st']|] eqn:Hu; [|exact Hwf].
  destruct (of_row r); simpl; [|exact Hwf].
  eapply update_wf; eassumption.
Qed.

Lemma link_wf secondary st a b :
  wf metadata st -> wf metadata (Session.link strict secondary st a b).2.
Proof.
  intros Hwf. unfold Session.link.
  destruct (insert _ _ _ _ _) as [[r st']|] eqn:Hi; [|exact Hwf].
  simpl. eapply insert_wf; eassumption.
Qed.

Lemma unlink_wf secondary tb st a b :
  find_table metadata (db.tbl_name secondary) = Some tb ->
  wf metadata st -> wf metadata (Session.unlink secondary st a b).2.
Proof.
  intros Hf Hwf. unfold Session.unlink.
  destruct (existsb _ _); [|exact Hwf].
  simpl. eapply delete_wf; eassumption.
Qed.

Lemma exec_wf o st : wf metadata st -> wf metadata (Session.exec strict o st).
Proof.
  intros Hwf. destruct o; simpl;
    first [ apply add_wf | apply commit_wf | apply link_wf
          | eapply unlink_wf; [reflexivity|] ]; exact Hwf.
Qed.

Lemma run_wf ops : wf metadata (Session.run strict ops).
Proof.
  unfold Session.run. generalize wf_empty. generalize (∅ : store).
  induction ops as [|o ops IH]; intros st Hwf; simpl; [exact Hwf|].
  apply IH, exec_wf, Hwf.
Qed.

End SessionFacts.

(** ** Queries *)

Lemma query_all_elem {A} `{Model A} st (x : A) :
  x ∈ query_all st <-> exists r, r ∈ rows_of st (db.tbl_name table) /\ of_row r = Some x.
Proof. unfold query_all. apply list_elem_of_omap. Qed.

(** In a well-formed store the rows of a declared table fit its columns. *)
Lemma wf_row_fits st tb r :
  wf metadata st -> find_table metadata (db.tbl_name tb) = Some tb ->
  r ∈ rows_of st (db.tbl_name tb) -> row_fits (db.tbl_columns tb) r.
Proof.
  intros Hwf Hf Hin.
  destruct (wf_rows_of metadata st _ tb Hwf Hf) as (Hfits & _).
  rewrite Forall_forall in Hfits. apply Hfits. exact Hin.
Qed.

Lemma NoDup_fmap_eq {A B} (f : A -> B) (l : list A) x y :
  NoDup (f <$> l) -> x ∈ l -> y ∈ l -> f x = f y -> x = y.
Proof.
  induction l as [|a l IH]; simpl; intros Hnd Hx Hy Hxy; [inversion Hx|].
  apply NoDup_cons in Hnd as [Ha Hnd].
  apply elem_of_cons in Hx as [->|Hx]; apply elem_of_cons in Hy as [->|Hy].
  - reflexivity.
  - exfalso. apply Ha. rewrite Hxy. apply list_elem_of_fmap_2. exact Hy.
  - exfalso. apply Ha. rewrite <- Hxy. apply list_elem_of_fmap_2. exact Hx.
  - apply IH; assumption.
Qed.

Lemma cell_int_inv v o : cell_int v = Some o -> v = int_cell o.
Proof. destruct v; simpl; intros [= <-]; reflexivity. Qed.

Lemma cell_str_inv v o : cell_str v = Some o -> v = str_cell o.
Proof. destruct v; simpl; intros [= <-]; reflexivity. Qed.

(** Mapping a row to an instance and back gives the row. *)
Lemma user_of_row r u : user.of_row r = Some u -> r = user.to_row u.
Proof.
  destruct r as [|i [|f [|l [|e [|p [|]]]]]]; try discriminate. simpl.
  destruct (cell_int i) eqn:Hi, (cell_str f) eqn:Hf, (cell_str l) eqn:Hl,
           (cell_str e) eqn:He, (cell_str p) eqn:Hp; simpl; try discriminate.
  intros [= <-]. unfold user.to_row. simpl.
  apply cell_int_inv in Hi. apply cell_str_inv in Hf, Hl, He, Hp. congruence.
Qed.

Lemma deck_of_row r d : deck.of_row r = Some d -> r = deck.to_row d.
Proof.
  destruct r as [|i [|n [|o [|]]]]; try discriminate. simpl.
  destruct (cell_int i) eqn:Hi, (cell_str n) eqn:Hn, (cell_int o) eqn:Ho;
    simpl; try discriminate.
  intros [= <-]. unfold deck.to_row. simpl.
  apply cell_int_inv in Hi, Ho. apply cell_str_inv in Hn. congruence.
Qed.

Lemma card_of_row r c : card.of_row r = Some c -> r = card.to_row c.
Proof.
  destruct r as [|i [|f [|b [|d [|o [|]]]]]]; try discriminate. simpl.
  destruct (cell_int i) eqn:Hi, (cell_str f) eqn:Hf, (cell_str b) eqn:Hb,
           (cell_int d) eqn:Hd, (cell_int o) eqn:Ho; simpl; try discriminate.
  intros [= <-]. unfold card.to_row. simpl.
  apply cell_int_inv in Hi, Hd, Ho. apply cell_str_inv in Hf, Hb. congruence.
Qed.

Lemma class_of_row r k : class.of_row r = Some k -> r = class.to_row k.
Proof.
  destruct r as [|i [|n [|p [|o [|]]]]]; try discriminate. simpl.
  destruct (cell_int i) eqn:Hi, (cell_str n) eqn:Hn, (cell_str p) eqn:Hp,
           (cell_int o) eqn:Ho; simpl; try discriminate.
  intros [= <-]. unfold class.to_row. simpl.
  apply cell_int_inv in Hi, Ho. apply cell_str_inv in Hn, Hp. congruence.
Qed.

Lemma user_to_row_of u : user.of_row (user.to_row u) = Some u.
Proof. destruct u as [[] [] [] [] []]; reflexivity. Qed.

Lemma card_to_row_of c : card.of_row (card.to_row c) = Some c.
Proof. destruct c as [[] [] [] [] []]; reflexivity. Qed.

(** C1. [d.list_cards(o)] returns exactly the stored cards whose
    [owner_id] is [o]: the deck [d] plays no part, so every deck gives the
    same answer and a card of another deck owned by [o] is in it. *)
Theorem list_cards_ignores_deck (st : store) (d : deck.t) (o : Z) :
  (forall c, c ∈ Deck.list_cards st d o
             <-> c ∈ query_all st /\ card.owner_id c = Some o)
  /\ (forall d', Deck.list_cards st d' o = Deck.list_cards st d o)
  /\ (forall c, c ∈ query_all st -> card.owner_id c = Some o ->
                card.deck_id c <> deck.id d -> c ∈ Deck.list_cards st d o).
Proof.
  assert (Hiff : forall c, c ∈ Deck.list_cards st d o
                           <-> c ∈ query_all st /\ card.owner_id c = Some o).
  { intros c. unfold Deck.list_cards.
    rewrite list_elem_of_In, filter_In, bool_decide_eq_true, <- list_elem_of_In.
    reflexivity. }
  split; [exact Hiff|]. split; [reflexivity|].
  intros c Hin Ho _. apply Hiff. split; assumption.
Qed.

Lemma list_cards_ignores_deck_witness :
  card.mk (Some 2%Z) (Some "bonjour") (Some "hello") (Some 2%Z) (Some 1%Z)
    ∈ Deck.list_cards sample_store spanish 1.
Proof.
  refine (proj2 (proj2 (list_cards_ignores_deck sample_store spanish 1)) _ _ _ _).
  - vm_compute. apply list_elem_of_In. simpl. auto.
  - reflexivity.
  - discriminate.
Defined.

(** C6. In every store the requests can produce, the front and the back of
    a stored card have at most 1200 characters: inserting a constructed
    card and saving an assigned field both go through the column type. *)
Theorem card_text_bounded strict ops (c : card.t) :
  c ∈ query_all (Session.run strict ops) ->
  (forall s, card.front c = Some s -> String.length s <= 1200)
  /\ (forall s, card.back c = Some s -> String.length s <= 1200).
Proof.
  intros Hin. apply query_all_elem in Hin as (r & Hr & Hof).
  apply card_of_row in Hof. subst r.
  pose proof (wf_row_fits _ card.table _ (run_wf strict ops) eq_refl Hr) as Hfit.
  unfold row_fits, card.to_row in Hfit. simpl in Hfit.
  inversion Hfit as [|? ? ? ? _ Hfit1]; subst.
  inversion Hfit1 as [|? ? ? ? Hf Hfit2]; subst.
  inversion Hfit2 as [|? ? ? ? Hb _]; subst.
  split; intros s Hs; rewrite Hs in *; simpl in *; apply Nat.leb_le; assumption.
Qed.

Lemma card_text_bounded_witness :
  (forall s, Some "hola" = Some s -> String.length s <= 1200)
  /\ (forall s, Some "hello" = Some s -> String.length s <= 1200).
Proof.
  refine (card_text_bounded true sample_ops
            (card.mk (Some 1%Z) (Some "hola") (Some "hello") (Some 1%Z) (Some 1%Z)) _).
  vm_compute. apply list_elem_of_In. simpl. auto.
Defined.

(** ** load_user *)

Lemma query_get_user_none st n :
  (forall u : user.t, u ∈ query_all st -> user.id u <> Some n) ->
  query_get (A:=user.t) st n = None.
Proof.
  intros Hno. unfold query_get.
  change (pk_index (db.tbl_columns table)) with (Some 0). simpl.
  destruct (List.find _ _) as [r|] eqn:Hfind; [|reflexivity]. simpl.
  destruct (user.of_row r) as [u|] eqn:Hof; [|reflexivity].
  apply find_some in Hfind as [Hin Hrow].
  exfalso. apply (Hno u).
  - apply query_all_elem. exists r. split; [apply list_elem_of_In; exact Hin|exact Hof].
  - apply user_of_row in Hof. subst r.
    unfold is_row in Hrow. apply bool_decide_eq_true in Hrow.
    unfold cell, user.to_row in Hrow. simpl in Hrow.
    destruct (user.id u); simpl in Hrow; congruence.
Qed.

Lemma query_get_user_some st n (u : user.t) :
  wf metadata st -> u ∈ query_all st -> user.id u = Some n ->
  query_get st n = Some u.
Proof.
  intros Hwf Hin Hid. unfold query_get.
  change (pk_index (db.tbl_columns table)) with (Some 0). simpl.
  apply query_all_elem in Hin as (r & Hr & Hof).
  assert (Hkey : is_row 0 n r = true).
  { apply user_of_row in Hof. subst r. unfold is_row, cell, user.to_row. simpl.
    rewrite Hid. apply bool_decide_eq_true. reflexivity. }
  destruct (List.find _ _) as [r'|] eqn:Hfind.
  - apply find_some in Hfind as [Hin' Hrow']. simpl.
    destruct (wf_rows_of metadata st "user" user.table Hwf eq_refl) as (_ & Hnd & _).
    unfold pk_values in Hnd. change (pk_index _) with (Some 0) in Hnd.
    assert (r' = r) as ->; [|exact Hof].
    eapply NoDup_fmap_eq; [exact Hnd|apply list_elem_of_In; exact Hin'|exact Hr|].
    unfold is_row in *. apply bool_decide_eq_true in Hkey, Hrow'. congruence.
  - eapply find_none in Hfind; [|apply list_elem_of_In; exact Hr]. congruence.
Qed.



(** ** Inserting rows *)

#[local] Arguments has_value : simpl never.
#[local] Arguments references : simpl never.
#[local] Arguments next_id : simpl never.
#[local] Arguments rows_of : simpl never.

(** A row that fits its columns is stored as it is, key apart. *)
Lemma insert_fitting md strict st t tb r :
  find_table md t = Some tb -> row_fits (db.tbl_columns tb) r ->
  insert md strict st t r
  = (let r2 := autoincrement (db.tbl_columns tb) (rows_of st t) r in
     _ <-! check_columns md st (rows_of st t) 0 (db.tbl_columns tb) r2 ;;
     Ok (r2, <[t := rows_of st t ++ [r2]]> st)).
Proof.
  intros Hf Hfit. unfold insert. rewrite Hf.
  rewrite (coerce_row_id strict _ _ Hfit). reflexivity.
Qed.

Lemma insert_inv md strict st t r r2 st' :
  insert md strict st t r = Ok (r2, st') ->
  exists tb r1,
    find_table md t = Some tb
    /\ coerce_row strict (db.tbl_columns tb) r = Ok r1
    /\ r2 = autoincrement (db.tbl_columns tb) (rows_of st t) r1
    /\ st' = <[t := rows_of st t ++ [r2]]> st.
Proof.
  unfold insert.
  destruct (find_table md t) as [tb|]; [|discriminate].
  destruct (coerce_row strict _ r) as [r1|] eqn:Hr1; simpl; [|discriminate].
  destruct (check_columns _ _ _ _ _ _) as [[]|]; simpl; [|discriminate].
  intros [= <- <-]. exists tb, r1. repeat split. exact Hr1.
Qed.

Lemma autoincrement_lookup_ne cols rows r i j :
  pk_index cols = Some i -> j <> i ->
  autoincrement cols rows r !! j = r !! j.
Proof.
  intros Hpk Hne. unfold autoincrement. rewrite Hpk.
  destruct (cell i r); try reflexivity.
  destruct (db.col_type <$> cols !! i) as [[]|]; try reflexivity.
  apply list_lookup_insert_ne. congruence.
Qed.

(** A stored instance puts its cell in the column. *)
Lemma existing_value {A} `{Model A} st (x : A) i v :
  x ∈ query_all st -> cell i (to_row x) = v ->
  (forall r y, of_row r = Some y -> r = to_row y) ->
  has_value i v (rows_of st (db.tbl_name table)) = true.
Proof.
  intros Hin Hc Hinv. apply query_all_elem in Hin as (r & Hr & Hof).
  apply Hinv in Hof. subst r. apply has_value_elem, list_elem_of_fmap.
  exists (to_row x). split; [symmetry; exact Hc|exact Hr].
Qed.

Lemma references_insert_ne md (st : store) t rows target v :
  t <> target.1 ->
  references md (<[t := rows]> st) target v = references md st target v.
Proof.
  intros Hne. unfold references.
  destruct (find_table md target.1); [|reflexivity].
  destruct (col_index _ _); [|reflexivity].
  rewrite rows_of_insert_ne by exact Hne. reflexivity.
Qed.

(** ** Unique columns *)

Lemma add_user_duplicate strict st (u0 : user.t) f l e p :
  u0 ∈ query_all st -> user.email u0 = Some e ->
  storable (User.__init__ f l (Some e) p) ->
  Session.add strict st (User.__init__ f l (Some e) p)
  = (Raise (IntegrityError "Duplicate entry"), st).
Proof.
  intros Hin He Hfit. unfold Session.add.
  change (db.tbl_name table) with "user".
  rewrite (insert_fitting metadata strict st "user" user.table _ eq_refl Hfit).
  pose proof (existing_value st u0 3 (db.Str e) Hin) as Hdup.
  cbn in Hdup. rewrite He in Hdup. specialize (Hdup eq_refl user_of_row).
  pose proof (next_id_fresh 0 (rows_of st "user")) as Hnew.
  destruct f, l, p; cbn; rewrite Hnew; cbn; rewrite Hdup; reflexivity.
Qed.

Lemma add_deck_duplicate strict st (d0 : deck.t) n owner :
  d0 ∈ query_all st -> deck.name d0 = Some n ->
  storable (Deck.__init__ (Some n) owner) ->
  Session.add strict st (Deck.__init__ (Some n) owner)
  = (Raise (IntegrityError "Duplicate entry"), st).
Proof.
  intros Hin Hn Hfit. unfold Session.add.
  change (db.tbl_name table) with "deck".
  rewrite (insert_fitting metadata strict st "deck" deck.table _ eq_refl Hfit).
  pose proof (existing_value st d0 1 (db.Str n) Hin) as Hdup.
  cbn in Hdup. rewrite Hn in Hdup. specialize (Hdup eq_refl deck_of_row).
  pose proof (next_id_fresh 0 (rows_of st "deck")) as Hnew.
  destruct (user.id owner) eqn:Ho; cbn; rewrite ?Ho; cbn;
    rewrite Hnew; cbn; rewrite Hdup; reflexivity.
Qed.

Lemma add_class_duplicate strict st (k0 : class.t) n ph owner :
  k0 ∈ query_all st -> class.name k0 = Some n ->
  storable (Class.__init__ (Some n) ph owner) ->
  Session.add strict st (Class.__init__ (Some n) ph owner)
  = (Raise (IntegrityError "Duplicate entry"), st).
Proof.
  intros Hin Hn Hfit. unfold Session.add.
  change (db.tbl_name table) with "class".
  rewrite (insert_fitting metadata strict st "class" class.table _ eq_refl Hfit).
  pose proof (existing_value st k0 1 (db.Str n) Hin) as Hdup.
  cbn in Hdup. rewrite Hn in Hdup. specialize (Hdup eq_refl class_of_row).
  pose proof (next_id_fresh 0 (rows_of st "class")) as Hnew.
  destruct ph, (user.id owner) eqn:Ho; cbn; rewrite ?Ho; cbn;
    rewrite Hnew; cbn; rewrite Hdup; reflexivity.
Qed.



(** NULLs never collide: two users without an email can both be stored. *)
Lemma null_emails_may_repeat :
  let st1 := (Session.add true ∅ (User.__init__ None None None None)).2 in
  (Session.add true st1 (User.__init__ None None None None)).1
  = Ok (user.mk (Some 2%Z) None None None None).
Proof. vm_compute. reflexivity. Qed.

(** ** Association tables *)

Lemma link_user_classes strict st a b :
  Session.link strict UserClasses st a b
  = if references metadata st ("user", "id") (db.Int a)
       && references metadata st ("class", "id") (db.Int b)
    then (Ok tt, <["UserClasses" := rows_of st "UserClasses" ++ [[db.Int a; db.Int b]]]> st)
    else (Raise (IntegrityError "a foreign key constraint fails"), st).
Proof.
  unfold Session.link, insert. cbn.
  destruct (references metadata st ("user", "id") (db.Int a)); cbn; [|reflexivity].
  destruct (references metadata st ("class", "id") (db.Int b)); cbn; reflexivity.
Qed.

Lemma link_card_classes strict st a b :
  Session.link strict CardClasses st a b
  = if references metadata st ("card", "id") (db.Int a)
       && references metadata st ("class", "id") (db.Int b)
    then (Ok tt, <["CardClasses," := rows_of st "CardClasses," ++ [[db.Int a; db.Int b]]]> st)
    else (Raise (IntegrityError "a foreign key constraint fails"), st).
Proof.
  unfold Session.link, insert. cbn.
  destruct (references metadata st ("card", "id") (db.Int a)); cbn; [|reflexivity].
  destruct (references metadata st ("class", "id") (db.Int b)); cbn; reflexivity.
Qed.

(** A pair linked once can be linked again: the table then holds it twice. *)
Lemma link_twice strict secondary st a b st1 :
  secondary = UserClasses \/ secondary = CardClasses ->
  Session.link strict secondary st a b = (Ok tt, st1) ->
  exists st2,
    Session.link strict secondary st1 a b = (Ok tt, st2)
    /\ rows_of st2 (db.tbl_name secondary)
       = rows_of st (db.tbl_name secondary) ++ [[db.Int a; db.Int b]; [db.Int a; db.Int b]].
Proof.
  intros [->| ->].
  - rewrite link_user_classes.
    destruct (references metadata st ("user", "id") _) eqn:H1; [|discriminate].
    destruct (references metadata st ("class", "id") _) eqn:H2; [|discriminate].
    simpl. intros [= <-]. eexists. rewrite link_user_classes.
    rewrite !references_insert_ne by discriminate. rewrite H1, H2. simpl.
    split; [reflexivity|].
    change (db.tbl_name UserClasses) with "UserClasses".
    rewrite !rows_of_insert, <- app_assoc. reflexivity.
  - rewrite link_card_classes.
    destruct (references metadata st ("card", "id") _) eqn:H1; [|discriminate].
    destruct (references metadata st ("class", "id") _) eqn:H2; [|discriminate].
    simpl. intros [= <-]. eexists. rewrite link_card_classes.
    rewrite !references_insert_ne by discriminate. rewrite H1, H2. simpl.
    split; [reflexivity|].
    change (db.tbl_name CardClasses) with "CardClasses,".
    rewrite !rows_of_insert, <- app_assoc. reflexivity.
Qed.



(** ** Cards and their collections *)

(** What [add] stores for a new card: a row of the card table, appended,
    that keeps the deck and owner keys of the instance. *)
Lemma add_card_inv strict st (c0 c : card.t) st' :
  Session.add strict st c0 = (Ok c, st') ->
  c ∈ query_all st'
  /\ (forall d, card.deck_id c0 = Some d -> card.deck_id c = Some d)
  /\ (forall o, card.owner_id c0 = Some o -> card.owner_id c = Some o).
Proof.
  unfold Session.add.
  destruct (insert _ _ _ _ _) as [[r st1]|] eqn:Hi; [|discriminate].
  destruct (of_row r) as [c'|] eqn:Hof; [|discriminate].
  intros [= <- <-].
  apply insert_inv in Hi as (tb & r1 & Hf & Hr1 & Hr & Hst).
  change (find_table metadata (db.tbl_name table)) with (Some card.table) in Hf.
  injection Hf as <-.
  assert (Hkeep : forall j z, j <> 0 -> to_row c0 !! j = Some (db.Int z) ->
                              r !! j = Some (db.Int z)).
  { intros j z Hj Hl. rewrite Hr.
    rewrite (autoincrement_lookup_ne (db.tbl_columns card.table) _ _ 0 j eq_refl Hj).
    eapply coerce_row_int; eassumption. }
  pose proof (card_of_row _ _ Hof) as Hrow.
  split; [|split].
  - apply query_all_elem. exists r. split; [|exact Hof].
    rewrite Hst, rows_of_insert. apply elem_of_app. right. apply list_elem_of_singleton.
    reflexivity.
  - intros d Hd. specialize (Hkeep 3 d). rewrite Hrow in Hkeep.
    cbn in Hkeep. rewrite Hd in Hkeep. specialize (Hkeep ltac:(lia) eq_refl).
    destruct (card.deck_id c'); simpl in Hkeep; congruence.
  - intros o Ho. specialize (Hkeep 4 o). rewrite Hrow in Hkeep.
    cbn in Hkeep. rewrite Ho in Hkeep. specialize (Hkeep ltac:(lia) eq_refl).
    destruct (card.owner_id c'); simpl in Hkeep; congruence.
Qed.



(** The commit of a card that fits its columns succeeds when its deck and
    its owner are stored. *)
Lemma add_card_succeeds strict st front back (deck : deck.t) (owner : user.t) :
  storable (Card.__init__ front back deck owner) ->
  deck ∈ query_all st -> owner ∈ query_all st ->
  is_Some (deck.id deck) -> is_Some (user.id owner) ->
  exists c st', Session.add strict st (Card.__init__ front back deck owner) = (Ok c, st').
Proof.
  intros Hfit Hdeck Howner [d Hd] [o Ho]. unfold Session.add.
  change (db.tbl_name table) with "card".
  rewrite (insert_fitting metadata strict st "card" card.table _ eq_refl Hfit).
  pose proof (existing_value st deck 0 (db.Int d) Hdeck) as Hrd.
  cbn in Hrd. rewrite Hd in Hrd. specialize (Hrd eq_refl deck_of_row).
  pose proof (existing_value st owner 0 (db.Int o) Howner) as Hro.
  cbn in Hro. rewrite Ho in Hro. specialize (Hro eq_refl user_of_row).
  pose proof (next_id_fresh 0 (rows_of st "card")) as Hnew.
  assert (Hd' : references metadata st ("deck", "id") (db.Int d) = true) by exact Hrd.
  assert (Ho' : references metadata st ("user", "id") (db.Int o) = true) by exact Hro.
  destruct front, back; cbn; rewrite Hd, Ho; cbn; rewrite Hnew; cbn;
    rewrite Hd'; cbn; rewrite Ho'; cbn; eauto.
Qed.

(** ** Membership and sharing *)

Lemma link_rows_ne strict secondary st a b t :
  db.tbl_name secondary <> t ->
  rows_of (Session.link strict secondary st a b).2 t = rows_of st t.
Proof.
  intros Hne. unfold Session.link.
  destruct (insert _ _ _ _ _) as [[r st']|] eqn:Hi; [|reflexivity].
  apply insert_inv in Hi as (tb & r1 & _ & _ & _ & ->). simpl.
  apply rows_of_insert_ne. exact Hne.
Qed.

Lemma unlink_rows_ne secondary st a b t :
  db.tbl_name secondary <> t ->
  rows_of (Session.unlink secondary st a b).2 t = rows_of st t.
Proof.
  intros Hne. unfold Session.unlink.
  destruct (existsb _ _); [|reflexivity].
  simpl. unfold delete. apply rows_of_insert_ne. exact Hne.
Qed.

(** The shared cards of a class are read from CardClasses and card only. *)
Lemma card_classes_frame st st' k :
  rows_of st' "CardClasses," = rows_of st "CardClasses," ->
  rows_of st' "card" = rows_of st "card" ->
  Class.card_classes st' k = Class.card_classes st k.
Proof.
  intros H1 H2. unfold Class.card_classes, linked, query_all.
  change (db.tbl_name CardClasses) with "CardClasses,".
  change (db.tbl_name table) with "card".
  rewrite H1, H2. reflexivity.
Qed.

(** The members of a class are read from UserClasses and user only. *)
Lemma classes_frame st st' k :
  rows_of st' "UserClasses" = rows_of st "UserClasses" ->
  rows_of st' "user" = rows_of st "user" ->
  Class.classes st' k = Class.classes st k.
Proof.
  intros H1 H2. unfold Class.classes, linked, query_all.
  change (db.tbl_name UserClasses) with "UserClasses".
  change (db.tbl_name table) with "user".
  rewrite H1, H2. reflexivity.
Qed.

(** C7. Adding a user to, or removing a user from, the members of a class
    leaves the shared cards of every class as they were; sharing a card
    into a class, or taking it out, leaves the members of every class as
    they were. *)
Theorem membership_and_sharing_independent strict (st : store)
    (user_id card_id class_id : Z) (k : class.t) :
  Class.card_classes (Session.exec strict (Session.Join user_id class_id) st) k
  = Class.card_classes st k
  /\ Class.card_classes (Session.exec strict (Session.Leave user_id class_id) st) k
     = Class.card_classes st k
  /\ Class.classes (Session.exec strict (Session.Share card_id class_id) st) k
     = Class.classes st k
  /\ Class.classes (Session.exec strict (Session.Unshare card_id class_id) st) k
     = Class.classes st k.
Proof.
  simpl. repeat split.
  - apply card_classes_frame; apply link_rows_ne; discriminate.
  - apply card_classes_frame; apply unlink_rows_ne; discriminate.
  - apply classes_frame; apply link_rows_ne; discriminate.
  - apply classes_frame; apply unlink_rows_ne; discriminate.
Qed.

(** ** The scenario of the specification

    User U, Deck D owned by U, Card C in D owned by U, Class K owned by U,
    U joined to K: C is in D.cards and in U.cards, U is a member of K. *)
Lemma sample_scenario :
  let c := card.mk (Some 1%Z) (Some "hola") (Some "hello") (Some 1%Z) (Some 1%Z) in
  let k := class.mk (Some 1%Z) (Some "Period1") (Some "k1") (Some 1%Z) in
  In c (Deck.cards sample_store spanish)
  /\ In c (User.cards sample_store ann)
  /\ Class.classes sample_store k = [ann]
  /\ Class.card_classes sample_store k = [c]
  /\ User.user_classes sample_store ann = [k].
Proof. vm_compute. repeat split; auto. Qed.

(** * Further properties of the models *)

(** ** Keys as text *)

Lemma int_digits_digit acc prev c k s :
  Py.digit_of c = Some k ->
  Py.int_digits acc prev (String.String c s) = Py.int_digits (10 * acc + k) true s.
Proof. intros Hk. simpl. rewrite Hk. reflexivity. Qed.

Ltac digit_value :=
  match goal with
  | |- context [Z.of_nat ?n] =>
      let v := eval vm_compute in (Z.of_nat n) in change (Z.of_nat n) with v
  end.

Lemma int_digits_acc d : forall acc,
  Py.int_digits (Z.pos acc) true (NilEmpty.string_of_uint d)
  = Some (Z.pos (Pos.of_uint_acc d acc)).
Proof.
  induction d as [|d IH|d IH|d IH|d IH|d IH|d IH|d IH|d IH|d IH|d IH]; intros acc;
    [reflexivity|..];
    cbn [NilEmpty.string_of_uint Pos.of_uint_acc];
    erewrite int_digits_digit by reflexivity;
    rewrite <- IH; f_equal; digit_value; lia.
Qed.

Lemma int_digits_uint d :
  Py.int_digits 0 true (NilEmpty.string_of_uint d) = Some (Z.of_N (Pos.of_uint d)).
Proof.
  induction d as [|d IH|d IH|d IH|d IH|d IH|d IH|d IH|d IH|d IH|d IH];
    [reflexivity|..];
    cbn [NilEmpty.string_of_uint Pos.of_uint];
    erewrite int_digits_digit by reflexivity;
    [exact IH|..];
    cbn [Z.of_N]; rewrite <- int_digits_acc; f_equal.
Qed.

(** A digit string parses the same whatever came before its first digit. *)
Lemma int_digits_first d acc :
  d <> Decimal.Nil ->
  Py.int_digits acc false (NilEmpty.string_of_uint d)
  = Py.int_digits acc true (NilEmpty.string_of_uint d).
Proof. destruct d; [congruence|..]; reflexivity. Qed.

Lemma lstrip_uint d : Py.lstrip (NilEmpty.string_of_uint d) = NilEmpty.string_of_uint d.
Proof. destruct d; reflexivity. Qed.

Lemma rstrip_cons c s :
  Py.is_space c = false -> Py.rstrip s = s ->
  Py.rstrip (String.String c s) = String.String c s.
Proof.
  intros Hc Hs. simpl. rewrite Hs, Hc. destruct s; reflexivity.
Qed.

Lemma rstrip_uint d : Py.rstrip (NilEmpty.string_of_uint d) = NilEmpty.string_of_uint d.
Proof.
  induction d; [reflexivity|..];
    cbn [NilEmpty.string_of_uint]; (apply rstrip_cons; [reflexivity|assumption]).
Qed.

Lemma unsigned_first d :
  d <> Decimal.Nil ->
  match NilEmpty.string_of_uint d with
  | String.String "-" r => Z.opp <$> Py.int_digits 0 false r
  | String.String "+" r => Py.int_digits 0 false r
  | _ => Py.int_digits 0 false (NilEmpty.string_of_uint d)
  end = Py.int_digits 0 false (NilEmpty.string_of_uint d).
Proof. destruct d; [congruence|..]; reflexivity. Qed.

(** [int(str(z)) == z]. *)
Lemma int_of_str_int z : Py.int_of_str (Py.str_int z) = Ok z.
Proof.
  destruct z as [|p|p]; [reflexivity|..];
    unfold Py.str_int, Py.int_of_str, Py.strip; cbn [Z.to_int NilZero.string_of_int];
    pose proof (Unsigned.to_uint_nonnil p) as Hnil;
    assert (Hs : NilZero.string_of_uint (Pos.to_uint p)
                 = NilEmpty.string_of_uint (Pos.to_uint p))
      by (destruct (Pos.to_uint p); [congruence|..]; reflexivity);
    rewrite Hs.
  - rewrite lstrip_uint, rstrip_uint. cbv zeta.
    rewrite (unsigned_first _ Hnil), (int_digits_first _ _ Hnil), int_digits_uint.
    rewrite Unsigned.of_to. reflexivity.
  - change (Py.lstrip (String.String "-" ?s)) with (String.String "-" s).
    rewrite rstrip_cons by (reflexivity || apply rstrip_uint). cbv zeta.
    rewrite (int_digits_first _ _ Hnil), int_digits_uint, Unsigned.of_to. reflexivity.
Qed.

(** ** What the four mapped classes have in common *)

Lemma fits_integer v : fits db.Integer v = true -> is_Some (cell_int v).
Proof. destruct v; simpl; eauto; discriminate. Qed.

Lemma fits_string n v : fits (db.String n) v = true -> is_Some (cell_str v).
Proof. destruct v; simpl; eauto; discriminate. Qed.

Ltac fitting_row Hfit :=
  unfold row_fits in Hfit; simpl in Hfit;
  repeat match goal with
         | H : Forall2 _ (_ :: _) _ |- _ =>
             apply Forall2_cons_inv_l in H as (? & ? & ? & H & ->)
         | H : Forall2 _ [] _ |- _ => apply Forall2_nil_inv_l in H as ->
         end;
  cbn [db.col_type] in *;
  repeat match goal with
         | H : fits db.Integer _ = true |- _ => apply fits_integer in H as [? H]
         | H : fits (db.String _) _ = true |- _ => apply fits_string in H as [? H]
         end;
  simpl;
  repeat match goal with H : _ = Some _ |- _ => rewrite H; clear H end;
  simpl; eauto.

#[global] Instance user_facts : ModelFacts user.t.
Proof.
  split; try reflexivity.
  - exact user_of_row.
  - exact user_to_row_of.
  - intros r Hfit. fitting_row Hfit.
Qed.

#[global] Instance card_facts : ModelFacts card.t.
Proof.
  split; try reflexivity.
  - exact card_of_row.
  - exact card_to_row_of.
  - intros r Hfit. fitting_row Hfit.
Qed.

#[global] Instance deck_facts : ModelFacts deck.t.
Proof.
  split; try reflexivity.
  - exact deck_of_row.
  - intros [[] [] []]; reflexivity.
  - intros r Hfit. fitting_row Hfit.
Qed.

#[global] Instance class_facts : ModelFacts class.t.
Proof.
  split; try reflexivity.
  - exact class_of_row.
  - intros [[] [] [] []]; reflexivity.
  - intros r Hfit. fitting_row Hfit.
Qed.

Section Stored.
Context {A : Type} `{ModelFacts A}.

Lemma stored_row st (x : A) :
  x ∈ query_all st <-> to_row x ∈ rows_of st (db.tbl_name table).
Proof.
  rewrite query_all_elem. split.
  - intros (r & Hr & Hof). apply model_of_row in Hof. subst r. exact Hr.
  - intros Hr. exists (to_row x). split; [exact Hr|apply model_to_row].
Qed.

Lemma stored_keys st :
  wf metadata st ->
  NoDup (cell 0 <$> rows_of st (db.tbl_name table))
  /\ db.Null ∉ cell 0 <$> rows_of st (db.tbl_name table).
Proof.
  intros Hwf.
  destruct (wf_rows_of metadata st _ table Hwf model_declared) as (_ & Hnd & Hnn).
  unfold pk_values in *. rewrite model_key in *. split; assumption.
Qed.

(** A stored instance has a key. *)
Lemma stored_has_key st (x : A) :
  wf metadata st -> x ∈ query_all st -> is_Some (identity x).
Proof.
  intros Hwf Hin. apply stored_row in Hin.
  destruct (stored_keys st Hwf) as [_ Hnn].
  destruct (identity x) as [n|] eqn:Hid; [eauto|].
  exfalso. apply Hnn. apply list_elem_of_fmap. exists (to_row x).
  split; [|exact Hin]. rewrite model_identity, Hid. reflexivity.
Qed.

(** Two stored instances with one key are one instance. *)
Lemma stored_key_inj st (x y : A) :
  wf metadata st -> x ∈ query_all st -> y ∈ query_all st ->
  identity x = identity y -> x = y.
Proof.
  intros Hwf Hx Hy Hid. apply stored_row in Hx, Hy.
  destruct (stored_keys st Hwf) as [Hnd _].
  assert (Hrow : to_row x = to_row y).
  { eapply NoDup_fmap_eq; [exact Hnd|exact Hx|exact Hy|].
    rewrite !model_identity, Hid. reflexivity. }
  pose proof (model_to_row x) as Hxx. rewrite Hrow, model_to_row in Hxx. congruence.
Qed.

Lemma is_row_key (x : A) n : is_row 0 n (to_row x) = true <-> identity x = Some n.
Proof.
  unfold is_row. rewrite bool_decide_eq_true, model_identity.
  destruct (identity x); simpl; split; congruence.
Qed.

(** [query.get] returns a stored instance with the key asked for. *)
Lemma query_get_inv st n (x : A) :
  query_get st n = Some x -> x ∈ query_all st /\ identity x = Some n.
Proof.
  unfold query_get. rewrite model_key.
  destruct (List.find _ _) as [r|] eqn:Hfind; [|discriminate]. simpl.
  intros Hof. apply find_some in Hfind as [Hin Hrow].
  pose proof (model_of_row _ _ Hof). subst r. split.
  - apply stored_row, list_elem_of_In. exact Hin.
  - apply is_row_key. exact Hrow.
Qed.

Lemma query_get_none st n :
  (forall x : A, x ∈ query_all st -> identity x <> Some n) ->
  query_get (A:=A) st n = None.
Proof.
  intros Hno. destruct (query_get st n) as [x|] eqn:Hget; [|reflexivity].
  apply query_get_inv in Hget as [Hin Hid]. exfalso. exact (Hno x Hin Hid).
Qed.

Lemma query_get_some st n (x : A) :
  wf metadata st -> x ∈ query_all st -> identity x = Some n ->
  query_get st n = Some x.
Proof.
  intros Hwf Hin Hid.
  destruct (query_get st n) as [y|] eqn:Hget.
  - apply query_get_inv in Hget as [Hy Hidy]. f_equal.
    eapply stored_key_inj; eauto. congruence.
  - exfalso. unfold query_get in Hget. rewrite model_key in Hget.
    destruct (List.find _ _) as [r|] eqn:Hfind.
    + simpl in Hget. apply find_some in Hfind as [Hr _].
      destruct (model_rows r) as [y Hy]; [|congruence].
      eapply wf_row_fits; [exact Hwf|apply model_declared|apply list_elem_of_In; exact Hr].
    + eapply find_none in Hfind; [|apply list_elem_of_In, stored_row; exact Hin].
      apply is_row_key in Hid. congruence.
Qed.

(** A foreign key into the table is satisfied exactly by the keys of the
    stored instances. *)
Lemma references_stored st n :
  wf metadata st ->
  references metadata st (db.tbl_name table, "id") (db.Int n) = true
  <-> exists x : A, x ∈ query_all st /\ identity x = Some n.
Proof.
  intros Hwf. unfold references. cbn [fst snd]. rewrite model_declared, model_id_column.
  rewrite has_value_elem, list_elem_of_fmap. split.
  - intros (r & Hc & Hr).
    destruct (model_rows r) as [x Hx].
    { eapply wf_row_fits; [exact Hwf|apply model_declared|exact Hr]. }
    exists x. pose proof (model_of_row _ _ Hx). subst r. split.
    + apply stored_row. exact Hr.
    + rewrite model_identity in Hc. destruct (identity x); simpl in Hc; congruence.
  - intros (x & Hin & Hid). exists (to_row x). split.
    + rewrite model_identity, Hid. reflexivity.
    + apply stored_row. exact Hin.
Qed.

End Stored.

(** ** Keys and the login session *)

(** X1. In a well-formed store, [load_user] applied to the [get_id()] of a
    stored user returns that user; applied to the [get_id()] of a user that
    was never committed (its key is [None]) it raises ValueError. *)
Theorem load_user_get_id (st : store) (u : user.t) :
  wf metadata st ->
  (u ∈ query_all st -> load_user st (SidStr (User.get_id u)) = Ok (Some u))
  /\ (user.id u = None ->
      load_user st (SidStr (User.get_id u))
      = Raise (ValueError "invalid literal for int() with base 10")).
Proof.
  intros Hwf. split.
  - intros Hin. destruct (stored_has_key st u Hwf Hin) as [n Hn].
    change (identity u) with (user.id u) in Hn.
    unfold load_user, User.get_id. rewrite Hn.
    cbn [Py.str_opt_int Py.int]. rewrite int_of_str_int. cbn [Py.bind].
    rewrite (query_get_some st n u Hwf Hin Hn). reflexivity.
  - intros Hnone. unfold load_user, User.get_id. rewrite Hnone. reflexivity.
Qed.

Lemma load_user_get_id_witness :
  load_user sample_store (SidStr (User.get_id ann)) = Ok (Some ann).
Proof.
  refine (proj1 (load_user_get_id sample_store ann (run_wf true sample_ops)) _).
  vm_compute. apply list_elem_of_In. simpl. auto.
Defined.

(** X2. In every store the requests can produce, a stored instance of any
    of the four classes has a key, and two stored instances of one class
    with the same key are the same instance. *)
Theorem keys_identify_instances {A : Type} `{ModelFacts A} strict ops (x y : A) :
  x ∈ query_all (Session.run strict ops) ->
  y ∈ query_all (Session.run strict ops) ->
  is_Some (identity x) /\ (identity x = identity y -> x = y).
Proof.
  intros Hx Hy. pose proof (run_wf strict ops) as Hwf. split.
  - eapply stored_has_key; eassumption.
  - intros Hid. eapply stored_key_inj; eassumption.
Qed.

Lemma keys_identify_instances_witness :
  is_Some (user.id ann) /\ (user.id ann = user.id ann -> ann = ann).
Proof.
  refine (@keys_identify_instances user.t _ _ true sample_ops ann ann _ _);
    vm_compute; apply list_elem_of_In; simpl; auto.
Defined.

(** ** Backrefs *)

Section Parent.
Context {P : Type} `{ModelFacts P}.

(** Following a foreign key finds the stored parent with that key. *)
Lemma parent_lookup st (fk : option Z) (p : P) :
  wf metadata st -> p ∈ query_all st ->
  (fk ≫= query_get st = Some p <-> is_Some fk /\ fk = identity p).
Proof.
  intros Hwf Hin. destruct fk as [n|]; simpl.
  - split.
    + intros Hget. apply query_get_inv in Hget as [_ Hid]. split; [eauto|congruence].
    + intros [_ Hid]. apply query_get_some; [exact Hwf|exact Hin|congruence].
  - split; [discriminate|]. intros [[? ?] _]. discriminate.
Qed.

End Parent.

Lemma filter_elem {A} (f : A -> bool) l x : x ∈ List.filter f l <-> x ∈ l /\ f x = true.
Proof. rewrite !list_elem_of_In. apply filter_In. Qed.

(** A collection selected by a foreign key holds the stored children whose
    key column leads back to the parent. *)
Lemma collection_backref {P C : Type} `{ModelFacts P} `{Model C}
    st (fk : C -> option Z) (p : P) (c : C) :
  wf metadata st -> p ∈ query_all st -> c ∈ query_all st ->
  (c ∈ match identity p with
       | Some n => List.filter (fun c => bool_decide (fk c = Some n)) (query_all st)
       | None => []
       end
   <-> fk c ≫= query_get st = Some p).
Proof.
  intros Hwf Hp Hc. rewrite (parent_lookup st (fk c) p Hwf Hp).
  destruct (stored_has_key st p Hwf Hp) as [n Hn]. rewrite Hn.
  rewrite filter_elem, bool_decide_eq_true. split.
  - intros [_ Hfk]. rewrite Hfk. eauto.
  - intros [_ Hfk]. auto.
Qed.

(** X3. In a well-formed store each one-to-many relationship and its
    backref agree: a stored deck is in [u.decks] exactly when its [owner]
    is [u], and likewise for [u.cards] / [Card.owner], [u.classes] /
    [Class.owner] and [d.cards] / [Card.deck]. *)
Theorem one_to_many_backrefs (st : store) :
  wf metadata st ->
  (forall (u : user.t) (d : deck.t), u ∈ query_all st -> d ∈ query_all st ->
     (d ∈ User.decks st u <-> Deck.owner st d = Some u))
  /\ (forall (u : user.t) (c : card.t), u ∈ query_all st -> c ∈ query_all st ->
        (c ∈ User.cards st u <-> Card.owner st c = Some u))
  /\ (forall (u : user.t) (k : class.t), u ∈ query_all st -> k ∈ query_all st ->
        (k ∈ User.classes st u <-> Class.owner st k = Some u))
  /\ (forall (d : deck.t) (c : card.t), d ∈ query_all st -> c ∈ query_all st ->
        (c ∈ Deck.cards st d <-> Card.deck st c = Some d)).
Proof.
  intros Hwf. split; [|split; [|split]].
  - intros u d Hu Hd. exact (collection_backref st deck.owner_id u d Hwf Hu Hd).
  - intros u c Hu Hc. exact (collection_backref st card.owner_id u c Hwf Hu Hc).
  - intros u k Hu Hk. exact (collection_backref st class.owner_id u k Hwf Hu Hk).
  - intros d c Hd Hc. exact (collection_backref st card.deck_id d c Hwf Hd Hc).
Qed.

Lemma one_to_many_backrefs_witness :
  Deck.owner sample_store spanish = Some ann.
Proof.
  refine (proj1 (proj1 (one_to_many_backrefs sample_store (run_wf true sample_ops))
                   ann spanish _ _) _).
  - vm_compute. apply list_elem_of_In. simpl. auto.
  - vm_compute. apply list_elem_of_In. simpl. auto.
  - vm_compute. apply list_elem_of_In. simpl. auto.
Defined.

(** Reading a [secondary] table from either side gives the same pairs. *)
Lemma linked_elem st secondary here there a b :
  b ∈ linked st secondary here there a
  <-> exists r, r ∈ rows_of st (db.tbl_name secondary)
                /\ cell here r = db.Int a /\ cell there r = db.Int b.
Proof.
  unfold linked. rewrite list_elem_of_omap. split.
  - intros (r & Hr & Hsel). exists r. split; [exact Hr|].
    destruct (bool_decide (cell here r = db.Int a)) eqn:Hb; [|discriminate].
    apply bool_decide_eq_true in Hb.
    destruct (cell there r); try discriminate. injection Hsel as ->. auto.
  - intros (r & Hr & Ha & Hb). exists r. split; [exact Hr|].
    rewrite Ha, Hb. rewrite bool_decide_eq_true_2 by reflexivity. reflexivity.
Qed.

Lemma linked_swap st secondary here there a b :
  b ∈ linked st secondary here there a <-> a ∈ linked st secondary there here b.
Proof. rewrite !linked_elem. split; intros (r & ? & ? & ?); eauto. Qed.

(** X4. Each many-to-many relationship and its backref are two readings of
    one table: for a stored user and a stored class, the class is in
    [u.user_classes] exactly when the user is in [k.classes]; for a stored
    card and a stored class, the card is in [k.card_classes] exactly when
    the class is in [c.cards]. *)
Theorem many_to_many_backrefs (st : store) :
  (forall (u : user.t) (k : class.t), u ∈ query_all st -> k ∈ query_all st ->
     (k ∈ User.user_classes st u <-> u ∈ Class.classes st k))
  /\ (forall (c : card.t) (k : class.t), c ∈ query_all st -> k ∈ query_all st ->
        (c ∈ Class.card_classes st k <-> k ∈ Card.cards st c)).
Proof.
  split.
  - intros u k Hu Hk. unfold User.user_classes, Class.classes.
    destruct (user.id u) as [uid|] eqn:Huid, (class.id k) as [kid|] eqn:Hkid.
    + rewrite !list_elem_of_bind. split.
      * intros (kid' & Hf & Hl). apply filter_elem in Hf as [_ Hb].
        apply bool_decide_eq_true in Hb. assert (kid' = kid) as -> by congruence.
        exists uid. split; [|apply linked_swap; exact Hl].
        apply filter_elem. split; [exact Hu|apply bool_decide_eq_true; exact Huid].
      * intros (uid' & Hf & Hl). apply filter_elem in Hf as [_ Hb].
        apply bool_decide_eq_true in Hb. assert (uid' = uid) as -> by congruence.
        exists kid. split; [|apply linked_swap; exact Hl].
        apply filter_elem. split; [exact Hk|apply bool_decide_eq_true; exact Hkid].
    + rewrite list_elem_of_bind. split; [|intros Hin; inversion Hin].
      intros (kid' & Hf & _). apply filter_elem in Hf as [_ Hb].
      apply bool_decide_eq_true in Hb. congruence.
    + rewrite list_elem_of_bind. split; [intros Hin; inversion Hin|].
      intros (uid' & Hf & _). apply filter_elem in Hf as [_ Hb].
      apply bool_decide_eq_true in Hb. congruence.
    + split; intros Hin; inversion Hin.
  - intros c k Hc Hk. unfold Class.card_classes, Card.cards.
    destruct (card.id c) as [cid|] eqn:Hcid, (class.id k) as [kid|] eqn:Hkid.
    + rewrite !list_elem_of_bind. split.
      * intros (cid' & Hf & Hl). apply filter_elem in Hf as [_ Hb].
        apply bool_decide_eq_true in Hb. assert (cid' = cid) as -> by congruence.
        exists kid. split; [|apply linked_swap; exact Hl].
        apply filter_elem. split; [exact Hk|apply bool_decide_eq_true; exact Hkid].
      * intros (kid' & Hf & Hl). apply filter_elem in Hf as [_ Hb].
        apply bool_decide_eq_true in Hb. assert (kid' = kid) as -> by congruence.
        exists cid. split; [|apply linked_swap; exact Hl].
        apply filter_elem. split; [exact Hc|apply bool_decide_eq_true; exact Hcid].
    + rewrite list_elem_of_bind. split; [intros Hin; inversion Hin|].
      intros (kid' & Hf & _). apply filter_elem in Hf as [_ Hb].
      apply bool_decide_eq_true in Hb. congruence.
    + rewrite list_elem_of_bind. split; [|intros Hin; inversion Hin].
      intros (cid' & Hf & _). apply filter_elem in Hf as [_ Hb].
      apply bool_decide_eq_true in Hb. congruence.
    + split; intros Hin; inversion Hin.
Qed.

(** ** What one request changes *)

Lemma insert_rows md strict st t r r2 st' :
  insert md strict st t r = Ok (r2, st') ->
  rows_of st' t = rows_of st t ++ [r2]
  /\ (forall t', t <> t' -> rows_of st' t' = rows_of st t').
Proof.
  intros Hi. apply insert_inv in Hi as (tb & r1 & _ & _ & _ & ->). split.
  - apply rows_of_insert.
  - intros t' Hne. apply rows_of_insert_ne. exact Hne.
Qed.

(** A row that was inserted passed the checks of its table. *)
Lemma insert_checked md strict st t r r2 st' :
  insert md strict st t r = Ok (r2, st') ->
  exists tb, find_table md t = Some tb
             /\ row_fits (db.tbl_columns tb) r2
             /\ check_columns md st (rows_of st t) 0 (db.tbl_columns tb) r2 = Ok tt.
Proof.
  unfold insert.
  destruct (find_table md t) as [tb|]; [|discriminate].
  destruct (coerce_row strict _ r) as [r1|] eqn:Hr1; simpl; [|discriminate].
  destruct (check_columns _ _ _ _ _ _) as [[]|] eqn:Hchk; simpl; [|discriminate].
  intros [= <- <-]. exists tb. split; [reflexivity|]. split; [|exact Hchk].
  apply autoincrement_fits. eapply coerce_row_fits. exact Hr1.
Qed.

(** An update replaces the rows of one key by a checked row of that key. *)
Lemma update_inv md strict st t id r r1 st' :
  update md strict st t id r = Ok (r1, st') ->
  exists tb i,
    find_table md t = Some tb
    /\ pk_index (db.tbl_columns tb) = Some i
    /\ row_fits (db.tbl_columns tb) r1
    /\ cell i r1 = db.Int id
    /\ check_columns md st
         (List.filter (fun r' => negb (is_row i id r')) (rows_of st t))
         0 (db.tbl_columns tb) r1 = Ok tt
    /\ st' = <[t := List.map (fun r' => if is_row i id r' then r1 else r')
                             (rows_of st t)]> st.
Proof.
  unfold update.
  destruct (find_table md t) as [tb|]; [|discriminate].
  destruct (pk_index (db.tbl_columns tb)) as [i|] eqn:Hpk; [|discriminate].
  destruct (negb _); [discriminate|].
  destruct (coerce_row strict _ _) as [r1'|] eqn:Hr1; simpl; [|discriminate].
  destruct (check_columns _ _ _ _ _ _) as [[]|] eqn:Hchk; simpl; [|discriminate].
  intros [= <- <-]. exists tb, i. repeat split; try assumption.
  - eapply coerce_row_fits. exact Hr1.
  - destruct (find_index_Some _ _ _ Hpk) as (c & Hc & _).
    pose proof (coerce_row_length _ _ _ _ Hr1) as Hlen.
    rewrite length_insert in Hlen.
    unfold cell. erewrite coerce_row_int; [reflexivity|exact Hr1|].
    apply list_lookup_insert_eq. rewrite Hlen. eapply lookup_lt_Some. exact Hc.
Qed.

Lemma add_changes {A} `{Model A} strict st (x : A) t :
  changed strict st (Session.add strict st x).2 t.
Proof.
  unfold Session.add.
  destruct (insert _ _ _ _ _) as [[r2 st1]|] eqn:Hi; [|left; reflexivity].
  destruct (of_row r2); [|left; reflexivity]. simpl.
  destruct (insert_rows _ _ _ _ _ _ _ Hi) as [Hsame Hother].
  destruct (decide (db.tbl_name table = t)) as [<-|Hne].
  - right; left. eauto.
  - left. apply Hother. exact Hne.
Qed.

Lemma link_changes strict secondary st a b t :
  changed strict st (Session.link strict secondary st a b).2 t.
Proof.
  unfold Session.link.
  destruct (insert _ _ _ _ _) as [[r2 st1]|] eqn:Hi; [|left; reflexivity]. simpl.
  destruct (insert_rows _ _ _ _ _ _ _ Hi) as [Hsame Hother].
  destruct (decide (db.tbl_name secondary = t)) as [<-|Hne].
  - right; left. eauto.
  - left. apply Hother. exact Hne.
Qed.

Lemma unlink_changes strict secondary st a b t :
  secondary = UserClasses \/ secondary = CardClasses ->
  changed strict st (Session.unlink secondary st a b).2 t.
Proof.
  intros Hsec. unfold Session.unlink.
  destruct (existsb _ _); [|left; reflexivity]. simpl. unfold delete.
  destruct (decide (db.tbl_name secondary = t)) as [<-|Hne].
  - right; right; right. split; [destruct Hsec as [->| ->]; auto|].
    eexists. apply rows_of_insert.
  - left. apply rows_of_insert_ne. exact Hne.
Qed.

Lemma exec_changes strict o st t : changed strict st (Session.exec strict o st) t.
Proof.
  destruct o; simpl;
    try apply add_changes; try apply link_changes;
    try (apply unlink_changes; auto).
  unfold Session.commit.
  destruct (identity c); [|left; reflexivity].
  destruct (update _ _ _ _ _ _) as [[r1 st1]|] eqn:Hu; [|left; reflexivity].
  destruct (of_row r1); [|left; reflexivity]. simpl.
  destruct (decide (db.tbl_name card.table = t)) as [<-|Hne].
  - right; right; left. split; [reflexivity|]. eauto 6.
  - left. apply update_inv in Hu as (tb & i & _ & _ & _ & _ & _ & ->).
    apply rows_of_insert_ne. exact Hne.
Qed.

(** An invariant of the rows of one table that every kind of change keeps
    holds in every store the requests can produce. *)
Lemma run_invariant (I : store -> Prop) strict ops :
  I ∅ -> (forall o st, wf metadata st -> I st -> I (Session.exec strict o st)) ->
  I (Session.run strict ops).
Proof.
  intros Hempty Hstep. unfold Session.run.
  assert (Hgen : forall st, wf metadata st -> I st ->
                            I (fold_left (fun st o => Session.exec strict o st) ops st)).
  { induction ops as [|o ops IH]; intros st Hwf HI; simpl; [exact HI|].
    apply IH; [apply exec_wf; exact Hwf|apply Hstep; assumption]. }
  apply Hgen; [apply wf_empty|exact Hempty].
Qed.

(** ** Unique columns, as an invariant *)

Lemma check_column_unique md st rows i c v :
  db.is_unique c = true ->
  check_column md st rows i c v = Ok tt ->
  v = db.Null \/ has_value i v rows = false.
Proof.
  intros Hu. unfold check_column. rewrite Hu, orb_true_r. simpl.
  destruct v; [auto| |];
    (destruct (has_value i _ rows); [discriminate|auto]).
Qed.

Lemma insert_keeps_distinct md strict st t tb i c r r2 st' :
  find_table md t = Some tb ->
  db.tbl_columns tb !! i = Some c -> db.is_unique c = true ->
  distinct_at i (rows_of st t) ->
  insert md strict st t r = Ok (r2, st') ->
  distinct_at i (rows_of st t ++ [r2]).
Proof.
  intros Hf Hc Hu Hd Hi.
  apply insert_checked in Hi as (tb' & Hf' & Hfit & Hchk).
  assert (tb' = tb) as -> by congruence.
  destruct (lookup_lt_is_Some_2 r2 i) as [v Hv].
  { rewrite (row_fits_length _ _ Hfit). eapply lookup_lt_Some. exact Hc. }
  pose proof (check_columns_lookup md st _ _ 0 r2 i c v Hchk Hc Hv) as Hcol.
  apply check_column_unique in Hcol; [|exact Hu].
  assert (Hcell : cell i r2 = v).
  { unfold cell. transitivity (default db.Null (Some v)); [f_equal; exact Hv|reflexivity]. }
  assert (Hnew : forall r', r' ∈ rows_of st t -> cell i r' = v -> v = db.Null).
  { intros r' Hr' Hcv. destruct Hcol as [Hnull|Hnone]; [exact Hnull|].
    exfalso. assert (Hh : has_value i v (rows_of st t) = true).
    { apply has_value_elem, list_elem_of_fmap. exists r'. split; [congruence|exact Hr']. }
    exact (eq_true_false_abs _ Hh Hnone). }
  intros x y Hx Hy Hxy Hnn.
  apply elem_of_app in Hx as [Hx|Hx]; apply elem_of_app in Hy as [Hy|Hy];
    try apply list_elem_of_singleton in Hx; try apply list_elem_of_singleton in Hy;
    subst.
  - apply Hd; assumption.
  - exfalso. apply Hnn. rewrite Hxy. apply (Hnew x Hx). exact Hxy.
  - exfalso. apply Hnn. apply (Hnew y Hy). symmetry. exact Hxy.
  - reflexivity.
Qed.

(** A unique column of a table that is only ever inserted into stays
    free of repeated values. *)
Lemma unique_column_invariant strict ops tb i c :
  find_table metadata (db.tbl_name tb) = Some tb ->
  db.tbl_columns tb !! i = Some c -> db.is_unique c = true ->
  db.tbl_name tb <> db.tbl_name card.table ->
  db.tbl_name tb <> db.tbl_name UserClasses ->
  db.tbl_name tb <> db.tbl_name CardClasses ->
  distinct_at i (rows_of (Session.run strict ops) (db.tbl_name tb)).
Proof.
  intros Hf Hc Hu Hn1 Hn2 Hn3.
  apply (run_invariant (fun st => distinct_at i (rows_of st (db.tbl_name tb)))).
  - intros r1 r2 Hr1. inversion Hr1.
  - intros o st _ Hd.
    destruct (exec_changes strict o st (db.tbl_name tb))
      as [Hsame|[(r & r2 & st1 & Hi & Hrows)|[[Heq _]|[[Heq|Heq] _]]]];
      try contradiction.
    + rewrite Hsame. exact Hd.
    + rewrite Hrows. eapply insert_keeps_distinct; eassumption.
Qed.

Lemma distinct_stored {A} `{ModelFacts A} st i (x y : A) :
  distinct_at i (rows_of st (db.tbl_name table)) ->
  x ∈ query_all st -> y ∈ query_all st ->
  cell i (to_row x) = cell i (to_row y) -> cell i (to_row x) <> db.Null ->
  x = y.
Proof.
  intros Hd Hx Hy Hxy Hnn. apply stored_row in Hx, Hy.
  pose proof (Hd _ _ Hx Hy Hxy Hnn) as Hrow.
  pose proof (model_to_row x) as Hxx. rewrite Hrow, model_to_row in Hxx. congruence.
Qed.

(** X5. In every store the requests can produce, two stored users with
    the same email are the same user, two stored decks with the same name
    are the same deck and two stored classes with the same name are the
    same class (an attribute left at [None] identifies nothing). *)
Theorem unique_columns_identify strict ops :
  (forall (u1 u2 : user.t) e,
     u1 ∈ query_all (Session.run strict ops) ->
     u2 ∈ query_all (Session.run strict ops) ->
     user.email u1 = Some e -> user.email u2 = Some e -> u1 = u2)
  /\ (forall (d1 d2 : deck.t) n,
        d1 ∈ query_all (Session.run strict ops) ->
        d2 ∈ query_all (Session.run strict ops) ->
        deck.name d1 = Some n -> deck.name d2 = Some n -> d1 = d2)
  /\ (forall (k1 k2 : class.t) n,
        k1 ∈ query_all (Session.run strict ops) ->
        k2 ∈ query_all (Session.run strict ops) ->
        class.name k1 = Some n -> class.name k2 = Some n -> k1 = k2).
Proof.
  split; [|split].
  - intros u1 u2 e H1 H2 He1 He2.
    eapply (distinct_stored _ 3);
      [apply (unique_column_invariant strict ops user.table 3 _ eq_refl eq_refl eq_refl);
         discriminate
      |exact H1|exact H2| |];
      cbn; rewrite He1, ?He2; [reflexivity|discriminate].
  - intros d1 d2 n H1 H2 Hn1 Hn2.
    eapply (distinct_stored _ 1);
      [apply (unique_column_invariant strict ops deck.table 1 _ eq_refl eq_refl eq_refl);
         discriminate
      |exact H1|exact H2| |];
      cbn; rewrite Hn1, ?Hn2; [reflexivity|discriminate].
  - intros k1 k2 n H1 H2 Hn1 Hn2.
    eapply (distinct_stored _ 1);
      [apply (unique_column_invariant strict ops class.table 1 _ eq_refl eq_refl eq_refl);
         discriminate
      |exact H1|exact H2| |];
      cbn; rewrite Hn1, ?Hn2; [reflexivity|discriminate].
Qed.

(** ** Text columns *)

Lemma fits_text n o s :
  fits (db.String n) (str_cell o) = true -> o = Some s -> String.length s <= n.
Proof. intros Hf ->. apply Nat.leb_le. exact Hf. Qed.

Ltac split_fits Hfit :=
  unfold row_fits in Hfit; simpl in Hfit;
  unfold user.to_row, deck.to_row, class.to_row in Hfit;
  repeat match goal with
         | H : Forall2 _ (_ :: _) (_ :: _) |- _ =>
             apply Forall2_cons in H as [? H]
         end;
  cbn beta in *; cbn [db.col_type] in *.

(** X6. In every store the requests can produce, the text attributes of
    stored users, decks and classes respect the declared lengths: first and
    last name 30, email 40, password hash 128, deck and class name 30. *)
Theorem text_columns_bounded strict ops :
  (forall (u : user.t) s, u ∈ query_all (Session.run strict ops) ->
     (user.first_name u = Some s -> String.length s <= 30)
     /\ (user.last_name u = Some s -> String.length s <= 30)
     /\ (user.email u = Some s -> String.length s <= 40)
     /\ (user.password_hash u = Some s -> String.length s <= 128))
  /\ (forall (d : deck.t) s, d ∈ query_all (Session.run strict ops) ->
        deck.name d = Some s -> String.length s <= 30)
  /\ (forall (k : class.t) s, k ∈ query_all (Session.run strict ops) ->
        (class.name k = Some s -> String.length s <= 30)
        /\ (class.password_hash k = Some s -> String.length s <= 128)).
Proof.
  pose proof (run_wf strict ops) as Hwf.
  split; [|split].
  - intros u s Hin. apply stored_row in Hin.
    pose proof (wf_row_fits _ user.table _ Hwf eq_refl Hin) as Hfit.
    split_fits Hfit. repeat split; intros Hs; refine (fits_text _ _ s _ Hs); assumption.
  - intros d s Hin. apply stored_row in Hin.
    pose proof (wf_row_fits _ deck.table _ Hwf eq_refl Hin) as Hfit.
    split_fits Hfit. intros Hs. refine (fits_text _ _ s _ Hs); assumption.
  - intros k s Hin. apply stored_row in Hin.
    pose proof (wf_row_fits _ class.table _ Hwf eq_refl Hin) as Hfit.
    split_fits Hfit. repeat split; intros Hs; refine (fits_text _ _ s _ Hs); assumption.
Qed.

(** ** Foreign keys, as an invariant *)

Lemma metadata_inv tb :
  tb ∈ metadata ->
  tb = UserClasses \/ tb = CardClasses \/ tb = user.table
  \/ tb = deck.table \/ tb = card.table \/ tb = class.table.
Proof.
  unfold metadata. rewrite !elem_of_cons, elem_of_nil. tauto.
Qed.

Lemma metadata_find tb :
  tb ∈ metadata -> find_table metadata (db.tbl_name tb) = Some tb.
Proof.
  intros Hin. apply metadata_inv in Hin.
  destruct Hin as [->|[->|[->|[->|[->| ->]]]]]; reflexivity.
Qed.

Lemma metadata_fk tb i c target :
  tb ∈ metadata -> db.tbl_columns tb !! i = Some c ->
  db.foreign_key c = Some target -> target ∈ fk_targets.
Proof.
  intros Hin Hc Hfk. apply metadata_inv in Hin. unfold fk_targets.
  destruct Hin as [->|[->|[->|[->|[->| ->]]]]];
    repeat (destruct i as [|i]; simpl in Hc;
            [injection Hc as <-; simpl in Hfk;
             try discriminate; injection Hfk as <-;
             rewrite !elem_of_cons; tauto|]);
    discriminate.
Qed.

Lemma has_value_app i v rows r :
  has_value i v rows = true -> has_value i v (rows ++ [r]) = true.
Proof.
  rewrite !has_value_elem, fmap_app, elem_of_app. auto.
Qed.

(** No request removes a key from an entity table. *)
Lemma keys_kept strict o st t v :
  t ∈ fk_targets.*1 ->
  has_value 0 v (rows_of st t) = true ->
  has_value 0 v (rows_of (Session.exec strict o st) t) = true.
Proof.
  intros Ht Hv.
  destruct (exec_changes strict o st t)
    as [Hsame|[(r & r2 & st1 & Hi & Hrows)|[[Heq Hupd]|[Heq _]]]].
  - rewrite Hsame. exact Hv.
  - rewrite Hrows. apply has_value_app. exact Hv.
  - destruct Hupd as (id & r & r1 & st1 & Hu & ->).
    apply update_inv in Hu as (tb & i & Hf & Hpk & _ & Hkey & _ & ->).
    subst t. injection Hf as <-. injection Hpk as <-.
    rewrite rows_of_insert.
    apply has_value_elem, list_elem_of_fmap in Hv as (r0 & Hc & Hr0).
    apply has_value_elem, list_elem_of_fmap.
    exists (if is_row 0 id r0 then r1 else r0). split.
    + unfold is_row. destruct (bool_decide (cell 0 r0 = db.Int id)) eqn:Hb; [|exact Hc].
      apply bool_decide_eq_true in Hb. congruence.
    + apply list_elem_of_In, in_map_iff. exists r0.
      split; [reflexivity|apply list_elem_of_In; exact Hr0].
  - exfalso. simpl in Ht. rewrite !elem_of_cons, elem_of_nil in Ht.
    destruct Heq as [->| ->]; destruct Ht as [Ht|[Ht|[Ht|[Ht|[]]]]]; discriminate.
Qed.

Lemma references_kept strict o st target v :
  target ∈ fk_targets ->
  references metadata st target v = true ->
  references metadata (Session.exec strict o st) target v = true.
Proof.
  intros Ht. pose proof (list_elem_of_fmap_2 fst _ _ Ht) as Ht1.
  unfold fk_targets in Ht. rewrite !elem_of_cons, elem_of_nil in Ht.
  destruct Ht as [->|[->|[->|[->|[]]]]]; unfold references; simpl; apply keys_kept;
    exact Ht1.
Qed.

Lemma check_column_fk md st rows i c v target :
  db.foreign_key c = Some target -> v <> db.Null ->
  check_column md st rows i c v = Ok tt ->
  references md st target v = true.
Proof.
  intros Hfk Hnn. unfold check_column. rewrite Hfk.
  destruct v; [contradiction| |];
    (destruct (_ && _); [discriminate|];
     destruct (references md st target _); [reflexivity|discriminate]).
Qed.

Lemma checked_fk md st rows tb i c target r :
  db.tbl_columns tb !! i = Some c -> db.foreign_key c = Some target ->
  row_fits (db.tbl_columns tb) r ->
  check_columns md st rows 0 (db.tbl_columns tb) r = Ok tt ->
  cell i r <> db.Null ->
  references md st target (cell i r) = true.
Proof.
  intros Hc Hfk Hfit Hchk Hnn.
  destruct (lookup_lt_is_Some_2 r i) as [v Hv].
  { rewrite (row_fits_length _ _ Hfit). eapply lookup_lt_Some. exact Hc. }
  assert (Hcell : cell i r = v).
  { unfold cell. transitivity (default db.Null (Some v)); [f_equal; exact Hv|reflexivity]. }
  rewrite Hcell in *.
  eapply check_column_fk; [exact Hfk|exact Hnn|].
  exact (check_columns_lookup md st rows _ 0 r i c v Hchk Hc Hv).
Qed.

Lemma fk_step strict o st : fk_holds st -> fk_holds (Session.exec strict o st).
Proof.
  intros Hfk tb i c target r Htb Hc Hkey Hr Hnn.
  pose proof (metadata_fk _ _ _ _ Htb Hc Hkey) as Htarget.
  apply references_kept; [exact Htarget|].
  pose proof (metadata_find _ Htb) as Hfind.
  destruct (exec_changes strict o st (db.tbl_name tb))
    as [Hsame|[(r0 & r2 & st1 & Hi & Hrows)|[[Heq Hupd]|[_ [p Hdel]]]]].
  - rewrite Hsame in Hr. eapply Hfk; eassumption.
  - rewrite Hrows in Hr. apply elem_of_app in Hr as [Hr|Hr]; [eapply Hfk; eassumption|].
    apply list_elem_of_singleton in Hr. subst r.
    apply insert_checked in Hi as (tb' & Hf' & Hfit & Hchk).
    assert (tb' = tb) as -> by congruence.
    eapply checked_fk; eassumption.
  - destruct Hupd as (id & r0 & r1 & st1 & Hu & Hrows). rewrite Hrows in Hr.
    apply update_inv in Hu as (tb' & j & Hf' & Hpk & Hfit & _ & Hchk & ->).
    assert (tb' = tb) as -> by congruence.
    rewrite rows_of_insert in Hr.
    apply list_elem_of_In, in_map_iff in Hr as (r' & Hsel & Hr').
    destruct (is_row j id r').
    + subst r. eapply checked_fk; eassumption.
    + subst r'. eapply Hfk; try eassumption. apply list_elem_of_In. exact Hr'.
  - rewrite Hdel in Hr. apply filter_elem in Hr as [Hr _]. eapply Hfk; eassumption.
Qed.

Lemma run_fk_holds strict ops : fk_holds (Session.run strict ops).
Proof.
  apply (run_invariant fk_holds).
  - intros tb i c target r _ _ _ Hr. inversion Hr.
  - intros o st _ Hfk. apply fk_step. exact Hfk.
Qed.

(** A satisfied foreign key is followed to a stored parent. *)
Lemma resolved {P : Type} `{ModelFacts P} st n :
  wf metadata st ->
  references metadata st (db.tbl_name table, "id") (db.Int n) = true ->
  is_Some (query_get (A:=P) st n).
Proof.
  intros Hwf Href. apply references_stored in Href as (x & Hin & Hid); [|exact Hwf].
  exists x. apply query_get_some; assumption.
Qed.

(** X7. In every store the requests can produce (none of which deletes an
    instance), every foreign key leads somewhere: a stored deck or class
    with an [owner_id] has an [owner], a stored card with a [deck_id] has a
    [deck] and with an [owner_id] an [owner], and each row of the two
    association tables links a stored user (card) to a stored class. *)
Theorem foreign_keys_resolve strict ops :
  (forall d : deck.t, d ∈ query_all (Session.run strict ops) ->
     is_Some (deck.owner_id d) -> is_Some (Deck.owner (Session.run strict ops) d))
  /\ (forall c : card.t, c ∈ query_all (Session.run strict ops) ->
        (is_Some (card.deck_id c) -> is_Some (Card.deck (Session.run strict ops) c))
        /\ (is_Some (card.owner_id c) -> is_Some (Card.owner (Session.run strict ops) c)))
  /\ (forall k : class.t, k ∈ query_all (Session.run strict ops) ->
        is_Some (class.owner_id k) -> is_Some (Class.owner (Session.run strict ops) k))
  /\ (forall uid kid, kid ∈ linked (Session.run strict ops) UserClasses 0 1 uid ->
        is_Some (query_get (A:=user.t) (Session.run strict ops) uid)
        /\ is_Some (query_get (A:=class.t) (Session.run strict ops) kid))
  /\ (forall cid kid, kid ∈ linked (Session.run strict ops) CardClasses 0 1 cid ->
        is_Some (query_get (A:=card.t) (Session.run strict ops) cid)
        /\ is_Some (query_get (A:=class.t) (Session.run strict ops) kid)).
Proof.
  pose proof (run_wf strict ops) as Hwf.
  pose proof (run_fk_holds strict ops) as Hfk.
  set (st := Session.run strict ops) in *.
  assert (Hmd : forall tb, In tb metadata -> tb ∈ metadata)
    by (intros tb Hin; apply list_elem_of_In; exact Hin).
  split; [|split; [|split; [|split]]].
  - intros d Hin [o Ho]. apply stored_row in Hin.
    unfold Deck.owner. rewrite Ho. simpl.
    apply (resolved (P:=user.t) st o Hwf).
    assert (Hcell : cell 2 (to_row d) = db.Int o) by (cbn; rewrite Ho; reflexivity).
    rewrite <- Hcell.
    refine (Hfk deck.table 2 _ _ _ (Hmd _ _) eq_refl eq_refl Hin _);
      [simpl; tauto|rewrite Hcell; discriminate].
  - intros c Hin. apply stored_row in Hin. split.
    + intros [d Hd]. unfold Card.deck. rewrite Hd. simpl.
      apply (resolved (P:=deck.t) st d Hwf).
      assert (Hcell : cell 3 (to_row c) = db.Int d) by (cbn; rewrite Hd; reflexivity).
      rewrite <- Hcell.
      refine (Hfk card.table 3 _ _ _ (Hmd _ _) eq_refl eq_refl Hin _);
        [simpl; tauto|rewrite Hcell; discriminate].
    + intros [o Ho]. unfold Card.owner. rewrite Ho. simpl.
      apply (resolved (P:=user.t) st o Hwf).
      assert (Hcell : cell 4 (to_row c) = db.Int o) by (cbn; rewrite Ho; reflexivity).
      rewrite <- Hcell.
      refine (Hfk card.table 4 _ _ _ (Hmd _ _) eq_refl eq_refl Hin _);
        [simpl; tauto|rewrite Hcell; discriminate].
  - intros k Hin [o Ho]. apply stored_row in Hin.
    unfold Class.owner. rewrite Ho. simpl.
    apply (resolved (P:=user.t) st o Hwf).
    assert (Hcell : cell 3 (to_row k) = db.Int o) by (cbn; rewrite Ho; reflexivity).
    rewrite <- Hcell.
    refine (Hfk class.table 3 _ _ _ (Hmd _ _) eq_refl eq_refl Hin _);
      [simpl; tauto|rewrite Hcell; discriminate].
  - intros uid kid Hl. apply linked_elem in Hl as (r & Hr & Ha & Hb). split.
    + apply (resolved (P:=user.t) st uid Hwf). rewrite <- Ha.
      refine (Hfk UserClasses 0 _ _ _ (Hmd _ _) eq_refl eq_refl Hr _);
        [simpl; tauto|rewrite Ha; discriminate].
    + apply (resolved (P:=class.t) st kid Hwf). rewrite <- Hb.
      refine (Hfk UserClasses 1 _ _ _ (Hmd _ _) eq_refl eq_refl Hr _);
        [simpl; tauto|rewrite Hb; discriminate].
  - intros cid kid Hl. apply linked_elem in Hl as (r & Hr & Ha & Hb). split.
    + apply (resolved (P:=card.t) st cid Hwf). rewrite <- Ha.
      refine (Hfk CardClasses 0 _ _ _ (Hmd _ _) eq_refl eq_refl Hr _);
        [simpl; tauto|rewrite Ha; discriminate].
    + apply (resolved (P:=class.t) st kid Hwf). rewrite <- Hb.
      refine (Hfk CardClasses 1 _ _ _ (Hmd _ _) eq_refl eq_refl Hr _);
        [simpl; tauto|rewrite Hb; discriminate].
Qed.

(** ** Missing parents *)

Lemma not_referenced {P : Type} `{ModelFacts P} st n :
  wf metadata st ->
  (forall x : P, x ∈ query_all st -> identity x <> Some n) ->
  references metadata st (db.tbl_name table, "id") (db.Int n) = false.
Proof.
  intros Hwf Hno.
  destruct (references _ _ _ _) eqn:Href; [|reflexivity].
  apply references_stored in Href as (x & Hin & Hid); [|exact Hwf].
  exfalso. exact (Hno x Hin Hid).
Qed.


(** ** Text too long for its column *)

Lemma coerce_strict_overlong n o s :
  o = Some s -> n < String.length s ->
  coerce true (db.String n) (str_cell o) = Raise (DataError "Data too long for column").
Proof. intros -> Hlt. exact (coerce_overlong true n s Hlt). Qed.

Lemma coerce_text_ok strict n o :
  (exists v, coerce strict (db.String n) (str_cell o) = Ok v)
  \/ coerce strict (db.String n) (str_cell o) = Raise (DataError "Data too long for column").
Proof.
  destruct o as [s|]; simpl; [|eauto].
  destruct (String.length s <=? n); [eauto|]. destruct strict; eauto.
Qed.

Lemma substring_short n : forall s, String.length s <= n -> String.substring 0 n s = s.
Proof.
  induction n as [|n IH]; intros [|c s]; simpl; intros Hle; try reflexivity; [lia|].
  rewrite IH by lia. reflexivity.
Qed.

Lemma coerce_nonstrict_text n o :
  coerce false (db.String n) (str_cell o)
  = Ok (str_cell (String.substring 0 n <$> o)).
Proof.
  destruct o as [s|]; simpl; [|reflexivity].
  destruct (Nat.leb_spec (String.length s) n) as [Hle|Hgt]; [|reflexivity].
  rewrite substring_short by exact Hle. reflexivity.
Qed.

Lemma coerce_integer strict o : coerce strict db.Integer (int_cell o) = Ok (int_cell o).
Proof. destruct o; reflexivity. Qed.

Lemma str_cell_inj o1 o2 : str_cell o1 = str_cell o2 -> o1 = o2.
Proof. destruct o1, o2; simpl; congruence. Qed.

Lemma coerce_card_row strict (c0 : card.t) :
  coerce_row strict (db.tbl_columns card.table) (card.to_row c0)
  = (f <-! coerce strict (db.String 1200) (str_cell (card.front c0)) ;;
     b <-! coerce strict (db.String 1200) (str_cell (card.back c0)) ;;
     Ok [int_cell (card.id c0); f; b;
         int_cell (card.deck_id c0); int_cell (card.owner_id c0)]).
Proof.
  unfold card.to_row. cbn [card.table db.tbl_columns coerce_row db.col_type].
  rewrite !coerce_integer. cbn [Py.bind].
  destruct (coerce strict (db.String 1200) (str_cell (card.front c0))); [|reflexivity].
  cbn [Py.bind].
  destruct (coerce strict (db.String 1200) (str_cell (card.back c0))); reflexivity.
Qed.


(** ** [__repr__] *)

Lemma owner_name_attribute_error (owner : option user.t) :
  owner = None <-> exists msg, owner_name owner = Raise (AttributeError msg).
Proof.
  split.
  - intros ->. simpl. eauto.
  - intros [msg Hraise]. destruct owner as [o|]; [|reflexivity].
    simpl in Hraise. destruct (user.first_name o), (user.last_name o); discriminate.
Qed.

Lemma repr_attribute_error (r : result string) (k : string -> result string) :
  (forall name, exists text, k name = Ok text) ->
  ((exists msg, (name <-! r ;; k name) = Raise (AttributeError msg))
   <-> exists msg, r = Raise (AttributeError msg)).
Proof.
  intros Hk. destruct r as [name|e]; simpl.
  - destruct (Hk name) as [text ->]. split; intros [msg Hm]; discriminate.
  - reflexivity.
Qed.

(** X10. In every store the requests can produce, the [__repr__] of a
    stored deck, and of a stored class, raises AttributeError exactly when
    the instance has no owner ([owner_id] is [None]). *)
Theorem repr_needs_owner strict ops :
  (forall d : deck.t, d ∈ query_all (Session.run strict ops) ->
     (deck.owner_id d = None
      <-> exists msg, Deck.__repr__ (Session.run strict ops) d = Raise (AttributeError msg)))
  /\ (forall k : class.t, k ∈ query_all (Session.run strict ops) ->
        (class.owner_id k = None
         <-> exists msg, Class.__repr__ (Session.run strict ops) k = Raise (AttributeError msg))).
Proof.
  pose proof (run_wf strict ops) as Hwf.
  pose proof (run_fk_holds strict ops) as Hfk.
  set (st := Session.run strict ops) in *.
  assert (Hmd : forall tb, In tb metadata -> tb ∈ metadata)
    by (intros tb Hin; apply list_elem_of_In; exact Hin).
  split.
  - intros d Hin. unfold Deck.__repr__.
    rewrite repr_attribute_error by eauto. rewrite <- owner_name_attribute_error.
    unfold Deck.owner. destruct (deck.owner_id d) as [o|] eqn:Ho; simpl; [|tauto].
    split; [discriminate|]. intros Hnone. exfalso.
    apply stored_row in Hin.
    assert (Hcell : cell 2 (to_row d) = db.Int o) by (cbn; rewrite Ho; reflexivity).
    destruct (resolved (P:=user.t) st o Hwf) as [u Hu]; [|congruence].
    rewrite <- Hcell.
    refine (Hfk deck.table 2 _ _ _ (Hmd _ _) eq_refl eq_refl Hin _);
      [simpl; tauto|rewrite Hcell; discriminate].
  - intros k Hin. unfold Class.__repr__.
    rewrite repr_attribute_error by eauto. rewrite <- owner_name_attribute_error.
    unfold Class.owner. destruct (class.owner_id k) as [o|] eqn:Ho; simpl; [|tauto].
    split; [discriminate|]. intros Hnone. exfalso.
    apply stored_row in Hin.
    assert (Hcell : cell 3 (to_row k) = db.Int o) by (cbn; rewrite Ho; reflexivity).
    destruct (resolved (P:=user.t) st o Hwf) as [u Hu]; [|congruence].
    rewrite <- Hcell.
    refine (Hfk class.table 3 _ _ _ (Hmd _ _) eq_refl eq_refl Hin _);
      [simpl; tauto|rewrite Hcell; discriminate].
Qed.

(** ** Joining and leaving *)

Lemma link_inv strict secondary st a b st' :
  secondary = UserClasses \/ secondary = CardClasses ->
  Session.link strict secondary st a b = (Ok tt, st') ->
  rows_of st' (db.tbl_name secondary)
  = rows_of st (db.tbl_name secondary) ++ [[db.Int a; db.Int b]]
  /\ (forall t, db.tbl_name secondary <> t -> rows_of st' t = rows_of st t).
Proof.
  intros Hsec Hlink.
  assert (Hst : st' = (Session.link strict secondary st a b).2) by (rewrite Hlink; reflexivity).
  split; [|intros t Hne; rewrite Hst; apply link_rows_ne; exact Hne].
  destruct Hsec as [->| ->].
  - rewrite link_user_classes in Hlink.
    destruct (_ && _); [|discriminate]. injection Hlink as <-. apply rows_of_insert.
  - rewrite link_card_classes in Hlink.
    destruct (_ && _); [|discriminate]. injection Hlink as <-. apply rows_of_insert.
Qed.

Lemma linked_after_link strict secondary st a b st' :
  secondary = UserClasses \/ secondary = CardClasses ->
  Session.link strict secondary st a b = (Ok tt, st') ->
  b ∈ linked st' secondary 0 1 a.
Proof.
  intros Hsec Hlink. apply linked_elem.
  destruct (link_inv _ _ _ _ _ _ Hsec Hlink) as [Hrows _].
  exists [db.Int a; db.Int b]. rewrite Hrows. split; [|split; reflexivity].
  apply elem_of_app. right. apply list_elem_of_singleton. reflexivity.
Qed.

Lemma unlink_inv secondary st a b st' :
  Session.unlink secondary st a b = (Ok tt, st') ->
  rows_of st' (db.tbl_name secondary)
  = List.filter (fun r => negb (bool_decide (r = [db.Int a; db.Int b])))
                (rows_of st (db.tbl_name secondary))
  /\ (forall t, db.tbl_name secondary <> t -> rows_of st' t = rows_of st t).
Proof.
  unfold Session.unlink. destruct (existsb _ _); [|discriminate].
  intros [= <-]. unfold delete. split; [apply rows_of_insert|].
  intros t Hne. apply rows_of_insert_ne. exact Hne.
Qed.

Lemma pair_row r a b :
  row_fits (db.tbl_columns UserClasses) r \/ row_fits (db.tbl_columns CardClasses) r ->
  cell 0 r = db.Int a -> cell 1 r = db.Int b -> r = [db.Int a; db.Int b].
Proof.
  intros Hfit Ha Hb.
  assert (Hlen : length r = 2) by (destruct Hfit as [Hfit|Hfit]; exact (row_fits_length _ _ Hfit)).
  destruct r as [|x [|y [|z r]]]; try discriminate.
  unfold cell in Ha, Hb. simpl in Ha, Hb. congruence.
Qed.

Lemma not_linked_after_unlink secondary st a b st' :
  secondary = UserClasses \/ secondary = CardClasses ->
  wf metadata st ->
  Session.unlink secondary st a b = (Ok tt, st') ->
  b ∉ linked st' secondary 0 1 a.
Proof.
  intros Hsec Hwf Hun Hl. apply linked_elem in Hl as (r & Hr & Ha & Hb).
  destruct (unlink_inv _ _ _ _ _ Hun) as [Hrows _]. rewrite Hrows in Hr.
  apply filter_elem in Hr as [Hr Hkeep].
  apply negb_true_iff, bool_decide_eq_false in Hkeep. apply Hkeep.
  apply pair_row; [|exact Ha|exact Hb].
  destruct Hsec as [->| ->]; [left|right];
    (eapply wf_row_fits; [exact Hwf|reflexivity|exact Hr]).
Qed.

Lemma query_all_same {A} `{Model A} st st' :
  rows_of st' (db.tbl_name table) = rows_of st (db.tbl_name table) ->
  query_all (A:=A) st' = query_all st.
Proof. intros Hrows. unfold query_all. rewrite Hrows. reflexivity. Qed.

(** X11. Appending a stored user to the members of a stored class, when
    the commit succeeds, makes the user a member ([k.classes]) and the
    class one of the user's ([u.user_classes]).  Removing a user who is
    linked to each class at most once, when the store is well formed and
    the commit succeeds, ends both (a user appended twice is outside this
    statement).  Removing a user who is not a member raises ValueError and
    leaves the store as it was. *)
Theorem membership_follows_requests strict (st : store)
    (u : user.t) (k : class.t) (uid kid : Z) :
  user.id u = Some uid -> class.id k = Some kid ->
  (forall st', u ∈ query_all st -> k ∈ query_all st ->
     Session.link strict UserClasses st uid kid = (Ok tt, st') ->
     u ∈ Class.classes st' k /\ k ∈ User.user_classes st' u)
  /\ (forall st', wf metadata st -> NoDup (linked st UserClasses 0 1 uid) ->
        Session.unlink UserClasses st uid kid = (Ok tt, st') ->
        (u ∉ Class.classes st' k) /\ (k ∉ User.user_classes st' u))
  /\ (kid ∉ linked st UserClasses 0 1 uid ->
      Session.unlink UserClasses st uid kid
      = (Raise (ValueError "list.remove(x): x not in list"), st)).
Proof.
  intros Huid Hkid. split; [|split].
  - intros st' Hu Hk Hlink.
    pose proof (linked_after_link _ _ _ _ _ _ (or_introl eq_refl) Hlink) as Hl.
    destruct (link_inv _ _ _ _ _ _ (or_introl eq_refl) Hlink) as [_ Hother].
    assert (Hu' : u ∈ query_all st').
    { rewrite (query_all_same st st'); [exact Hu|apply Hother; discriminate]. }
    assert (Hk' : k ∈ query_all st').
    { rewrite (query_all_same st st'); [exact Hk|apply Hother; discriminate]. }
    unfold Class.classes, User.user_classes. rewrite Huid, Hkid.
    rewrite !list_elem_of_bind. split.
    + exists uid. split; [|apply linked_swap; exact Hl].
      apply filter_elem. split; [exact Hu'|apply bool_decide_eq_true; exact Huid].
    + exists kid. split; [|exact Hl].
      apply filter_elem. split; [exact Hk'|apply bool_decide_eq_true; exact Hkid].
  - intros st' Hwf _ Hun.
    pose proof (not_linked_after_unlink _ _ _ _ _ (or_introl eq_refl) Hwf Hun) as Hnl.
    unfold Class.classes, User.user_classes. rewrite Huid, Hkid.
    rewrite !list_elem_of_bind. split.
    + intros (uid' & Hf & Hl). apply filter_elem in Hf as [_ Hb].
      apply bool_decide_eq_true in Hb. assert (uid' = uid) as -> by congruence.
      apply Hnl, linked_swap. exact Hl.
    + intros (kid' & Hf & Hl). apply filter_elem in Hf as [_ Hb].
      apply bool_decide_eq_true in Hb. assert (kid' = kid) as -> by congruence.
      exact (Hnl Hl).
  - intros Hnl. unfold Session.unlink.
    destruct (existsb _ _) eqn:Hex; [|reflexivity].
    exfalso. apply Hnl. apply existsb_exists in Hex as (r & Hr & Hb).
    apply bool_decide_eq_true in Hb. subst r.
    apply linked_elem. exists [db.Int uid; db.Int kid].
    split; [apply list_elem_of_In; exact Hr|split; reflexivity].
Qed.

(** ** Registering a user *)

Lemma stored_value {A} `{ModelFacts A} st i v :
  wf metadata st ->
  has_value i v (rows_of st (db.tbl_name table)) = true ->
  exists x : A, x ∈ query_all st /\ cell i (to_row x) = v.
Proof.
  intros Hwf Hv. apply has_value_elem, list_elem_of_fmap in Hv as (r & Hc & Hr).
  destruct (model_rows r) as [x Hx].
  { eapply wf_row_fits; [exact Hwf|apply model_declared|exact Hr]. }
  pose proof (model_of_row _ _ Hx). subst r.
  exists x. split; [apply stored_row; exact Hr|congruence].
Qed.


(** ** Decks and classes of an owner *)

(** What [add] stores: a row of the instance's table, after the rows
    already there, that keeps every integer cell but the key; no other
    table changes. *)
Lemma add_inv {A : Type} `{ModelFacts A} strict st (x0 x : A) st' :
  Session.add strict st x0 = (Ok x, st') ->
  x ∈ query_all st'
  /\ (forall j z, j <> 0 -> to_row x0 !! j = Some (db.Int z) ->
                  to_row x !! j = Some (db.Int z))
  /\ (forall t, db.tbl_name table <> t -> rows_of st' t = rows_of st t).
Proof.
  unfold Session.add.
  destruct (insert _ _ _ _ _) as [[r st1]|] eqn:Hi; [|discriminate].
  destruct (of_row r) as [x'|] eqn:Hof; [|discriminate].
  intros [= <- <-]. pose proof (model_of_row _ _ Hof). subst r.
  destruct (insert_rows _ _ _ _ _ _ _ Hi) as [Hrows Hother].
  apply insert_inv in Hi as (tb & r1 & Hf & Hr1 & Hr & _).
  rewrite model_declared in Hf. injection Hf as <-.
  split; [|split; [|exact Hother]].
  - apply stored_row. rewrite Hrows. apply elem_of_app. right.
    apply list_elem_of_singleton. reflexivity.
  - intros j z Hj Hl. rewrite Hr.
    rewrite (autoincrement_lookup_ne _ _ _ 0 j model_key Hj).
    eapply coerce_row_int; eassumption.
Qed.

(** X13. In a well-formed store, a deck built with [Deck(name, owner)], or
    a class built with [Class(name, password_hash, owner)], from a stored
    owner is, once committed, in [owner.decks] (in [owner.classes]), and
    its [owner] backref is that user. *)
Theorem committed_deck_and_class_belong_to_owner strict (st : store) (owner : user.t) :
  wf metadata st -> owner ∈ query_all st ->
  (forall name d st',
     Session.add strict st (Deck.__init__ name owner) = (Ok d, st') ->
     d ∈ User.decks st' owner /\ Deck.owner st' d = Some owner)
  /\ (forall name password_hash k st',
        Session.add strict st (Class.__init__ name password_hash owner) = (Ok k, st') ->
        k ∈ User.classes st' owner /\ Class.owner st' k = Some owner).
Proof.
  intros Hwf Howner.
  destruct (stored_has_key st owner Hwf Howner) as [n Hn].
  change (identity owner) with (user.id owner) in Hn.
  split.
  - intros name d st' Hadd.
    assert (Hwf' : wf metadata st').
    { replace st' with (Session.add strict st (Deck.__init__ name owner)).2
        by (rewrite Hadd; reflexivity).
      apply add_wf. exact Hwf. }
    apply add_inv in Hadd as (Hd & Hkeep & Hother).
    assert (Howner' : owner ∈ query_all st').
    { rewrite (query_all_same st st'); [exact Howner|apply Hother; discriminate]. }
    assert (Hkey : deck.owner_id d = Some n).
    { specialize (Hkeep 2 n ltac:(lia)). cbn in Hkeep. rewrite Hn in Hkeep.
      specialize (Hkeep eq_refl). destruct (deck.owner_id d); simpl in Hkeep; congruence. }
    assert (Hin : d ∈ User.decks st' owner).
    { unfold User.decks. rewrite Hn. apply filter_elem.
      split; [exact Hd|apply bool_decide_eq_true; exact Hkey]. }
    split; [exact Hin|].
    apply (collection_backref st' deck.owner_id owner d Hwf' Howner' Hd). exact Hin.
  - intros name password_hash k st' Hadd.
    assert (Hwf' : wf metadata st').
    { replace st' with (Session.add strict st (Class.__init__ name password_hash owner)).2
        by (rewrite Hadd; reflexivity).
      apply add_wf. exact Hwf. }
    apply add_inv in Hadd as (Hk & Hkeep & Hother).
    assert (Howner' : owner ∈ query_all st').
    { rewrite (query_all_same st st'); [exact Howner|apply Hother; discriminate]. }
    assert (Hkey : class.owner_id k = Some n).
    { specialize (Hkeep 3 n ltac:(lia)). cbn in Hkeep. rewrite Hn in Hkeep.
      specialize (Hkeep eq_refl). destruct (class.owner_id k); simpl in Hkeep; congruence. }
    assert (Hin : k ∈ User.classes st' owner).
    { unfold User.classes. rewrite Hn. apply filter_elem.
      split; [exact Hk|apply bool_decide_eq_true; exact Hkey]. }
    split; [exact Hin|].
    apply (collection_backref st' class.owner_id owner k Hwf' Howner' Hk). exact Hin.
Qed.

(** ** The properties on the sample run *)

Ltac stored := vm_compute; apply list_elem_of_In; simpl; auto.

Lemma many_to_many_backrefs_witness :
  period1 ∈ User.user_classes sample_store ann
  <-> ann ∈ Class.classes sample_store period1.
Proof.
  refine (proj1 (many_to_many_backrefs sample_store) ann period1 _ _); stored.
Defined.

Lemma unique_columns_identify_witness : ann = ann.
Proof.
  refine (proj1 (unique_columns_identify true sample_ops) ann ann "a@x.com"
            _ _ eq_refl eq_refl); stored.
Defined.

Lemma text_columns_bounded_witness : String.length "Ann" <= 30.
Proof.
  refine (proj1 (proj1 (text_columns_bounded true sample_ops) ann "Ann" _) eq_refl).
  stored.
Defined.

Lemma foreign_keys_resolve_witness :
  is_Some (Deck.owner (Session.run true sample_ops) spanish).
Proof.
  refine (proj1 (foreign_keys_resolve true sample_ops) spanish _ _).
  - stored.
  - eexists. reflexivity.
Defined.



Lemma repr_needs_owner_witness :
  deck.owner_id spanish = None
  <-> exists msg,
        Deck.__repr__ (Session.run true sample_ops) spanish = Raise (AttributeError msg).
Proof.
  refine (proj1 (repr_needs_owner true sample_ops) spanish _). stored.
Defined.

Lemma membership_follows_requests_witness :
  let st := Session.run true (take 7 sample_ops) in
  (ann ∈ Class.classes (Session.link true UserClasses st 1 1).2 period1
   /\ period1 ∈ User.user_classes (Session.link true UserClasses st 1 1).2 ann)
  /\ ((ann ∉ Class.classes (Session.unlink UserClasses sample_store 1 1).2 period1)
      /\ (period1 ∉ User.user_classes
                      (Session.unlink UserClasses sample_store 1 1).2 ann)).
Proof.
  split.
  - refine (proj1 (membership_follows_requests true
                     (Session.run true (take 7 sample_ops)) ann period1 1 1
                     eq_refl eq_refl)
              (Session.link true UserClasses
                 (Session.run true (take 7 sample_ops)) 1 1).2
              _ _ _).
    + stored.
    + stored.
    + vm_compute. reflexivity.
  - refine (proj1 (proj2 (membership_follows_requests true sample_store
                            ann period1 1 1 eq_refl eq_refl))
              (Session.unlink UserClasses sample_store 1 1).2
              (run_wf true sample_ops) _ _).
    + vm_compute. apply NoDup_singleton.
    + vm_compute. reflexivity.
Defined.


Lemma committed_deck_and_class_belong_to_owner_witness :
  let st := Session.run true (take 2 sample_ops) in
  Deck.owner (Session.add true st (Deck.__init__ (Some "Spanish") ann)).2 spanish
  = Some ann.
Proof.
  refine (proj2 (proj1 (committed_deck_and_class_belong_to_owner true
                          (Session.run true (take 2 sample_ops)) ann
                          (run_wf true (take 2 sample_ops)) _)
                   (Some "Spanish") spanish
                   (Session.add true (Session.run true (take 2 sample_ops))
                      (Deck.__init__ (Some "Spanish") ann)).2
                   _)).
  - stored.
  - vm_compute. reflexivity.
Defined.
